(** * Bubble shooter: a shallow embedding of [script.js]

    The game keeps its state in global variables and in [Bubble] objects that
    are shared between the arrays [bubbles] and [gridBubbles] and the slot
    [flyingBubble].  The embedding threads one [Game] record through every
    function; objects live in a heap (a list indexed by reference), so that a
    write through one alias is seen through the others.

    JavaScript numbers that hold coordinates, velocities and angles are IEEE
    binary64 values and are modelled by Rocq's primitive floats.  Numbers that
    only ever hold small integers (the score, loop counters, array lengths,
    the pop animation frame) are modelled by [Z] and [nat]: double arithmetic
    is exact on integers below 2^53, a bound the game cannot approach. *)

From Stdlib Require Import Floats ZArith Lia Bool String.
From stdpp Require Import base option list gmap.

Local Open Scope string_scope.
Local Open Scope list_scope.
Local Open Scope float_scope.

(** ** Numbers *)

(** Loop counters (small non-negative integers) used in float arithmetic. *)
Definition num_of_nat (n : nat) : float := of_uint63 (Uint63.of_Z (Z.of_nat n)).

(** Signed small integers as numbers. *)
Definition num_of_Z (z : Z) : float :=
  match z with
  | Zneg p => - of_uint63 (Uint63.of_Z (Zpos p))
  | _ => of_uint63 (Uint63.of_Z z)
  end.

(** Strict equality [===] on numbers: IEEE equality, so [-0 === 0] and
    [NaN !== NaN]. *)
Definition num_eq (a b : float) : Prop := (a =? b) = true.

Definition two52 : float := 4503599627370496.

(** [Math.round]: a number that is not finite or is already integral (every
    double of magnitude at least 2^52 is) is returned as it is; otherwise the
    closest integer, the one closer to +Infinity at a tie; the result is [-0]
    for arguments in [[-0.5, -0]].  [(a + 2^52) - 2^52] is the integer nearest
    to [a] for [0 <= a < 2^52], from which the floor [fl] and the exact
    fractional part [fr] of the magnitude follow. *)
Definition Math_round (v : float) : float :=
  if abs v <? two52 then
    if v =? 0 then v else
    let t := (abs v + two52) - two52 in
    let fl := if abs v <? t then t - 1 else t in
    let fr := abs v - fl in
    if 0 <? v then (if 0.5 <=? fr then fl + 1 else fl)
    else (if 0.5 <? fr then - (fl + 1) else - fl)
  else v.

(** The integer part of a finite number of magnitude below 2^52, rounded
    towards zero. *)
Definition trunc (v : float) : float :=
  let t := (abs v + two52) - two52 in
  let fl := if abs v <? t then t - 1 else t in
  if v <? 0 then - fl else fl.

(** [n % 2], the remainder with the sign of the dividend: [NaN] for a
    dividend that is not finite; a zero of the dividend's sign for the even
    doubles of magnitude 2^53 and more; [n - 2 * trunc (n / 2)] below, also
    with the dividend's sign at zero. *)
Definition rem2 (n : float) : float :=
  if abs n <? infinity then
    let r := if abs n <? 2 * two52 then n - 2 * trunc (n / 2) else 0 in
    if r =? 0 then (if (n <? 0) || Leibniz.eqb n (-0) then -0 else 0) else r
  else nan.

(** [Math.pow(v, 2)]: the correctly rounded square. *)
Definition Math_pow2 (v : float) : float := v * v.

(** [Math.sin], [Math.cos] and [Math.atan2] are host functions that
    ECMAScript leaves implementation-approximated except at a few arguments;
    the development is parametric in them and relies only on the exact cases
    the standard fixes: [sin(+0) = +0], [cos(+0) = 1] and
    [atan2(+0, x) = +0] for [x > 0]. *)
Class MathHost := {
  Math_sin : float -> float;
  Math_cos : float -> float;
  Math_atan2 : float -> float -> float;
  Math_sin_zero : Math_sin 0 = 0;
  Math_cos_zero : Math_cos 0 = 1;
  Math_atan2_zero : forall v, (0 <? v) = true -> Math_atan2 0 v = 0
}.

(** One value of [Math.random()], a number in [[0, 1)], as an exact fraction
    [dnum / dden]. *)
Record Draw := mkDraw { dnum : nat; dden : nat; draw_lt : (dnum < dden)%nat }.

(** [Math.floor(Math.random() * n)] for an array length [n]. *)
Definition randomIndex (d : Draw) (n : nat) : nat := (dnum d * n / dden d)%nat.

(** ** Game configuration *)

Definition CANVAS_WIDTH : float := 400.
Definition CANVAS_HEIGHT : float := 600.
Definition BUBBLE_RADIUS : float := 20.
Definition BUBBLE_DIAMETER : float := BUBBLE_RADIUS * 2.
Definition SHOOT_SPEED : float := 10.
Definition INITIAL_GRID_ROWS : nat := 5.
Definition GRID_COLS : nat := 10.
Definition CANNON_HEIGHT : float := 40.
Definition POP_SCORE : Z := 10.

Definition BUBBLE_COLORS : list string :=
  ["red"; "green"; "blue"; "yellow"; "purple"].

(** ** Bubbles *)

Module Bubble.
Record t := mk {
  x : float;
  y : float;
  color : string;
  radius : float;
  isGrid : bool;
  vx : float;
  vy : float;
  isPopping : bool;
  popFrame : nat
}.

(** [new Bubble(x, y, color, isGrid)] *)
Definition new (x0 y0 : float) (c : string) (grid : bool) : t :=
  mk x0 y0 c BUBBLE_RADIUS grid 0 0 false 0.

Definition set_x (v : float) (b : t) : t :=
  mk v (y b) (color b) (radius b) (isGrid b) (vx b) (vy b) (isPopping b) (popFrame b).
Definition set_y (v : float) (b : t) : t :=
  mk (x b) v (color b) (radius b) (isGrid b) (vx b) (vy b) (isPopping b) (popFrame b).
Definition set_isGrid (v : bool) (b : t) : t :=
  mk (x b) (y b) (color b) (radius b) v (vx b) (vy b) (isPopping b) (popFrame b).
Definition set_vx (v : float) (b : t) : t :=
  mk (x b) (y b) (color b) (radius b) (isGrid b) v (vy b) (isPopping b) (popFrame b).
Definition set_vy (v : float) (b : t) : t :=
  mk (x b) (y b) (color b) (radius b) (isGrid b) (vx b) v (isPopping b) (popFrame b).
Definition set_isPopping (v : bool) (b : t) : t :=
  mk (x b) (y b) (color b) (radius b) (isGrid b) (vx b) (vy b) v (popFrame b).
Definition set_popFrame (v : nat) (b : t) : t :=
  mk (x b) (y b) (color b) (radius b) (isGrid b) (vx b) (vy b) (isPopping b) v.
End Bubble.

#[export] Instance Bubble_inhabited : Inhabited Bubble.t :=
  populate (Bubble.new 0 0 "" false).

(** [dist(p1, p2)] *)
Definition dist (p1 p2 : Bubble.t) : float :=
  sqrt (Math_pow2 (Bubble.x p2 - Bubble.x p1) + Math_pow2 (Bubble.y p2 - Bubble.y p1)).

(** [this.isCollidingWith(otherBubble)] *)
Definition isCollidingWith (this other : Bubble.t) : bool :=
  dist this other <? (Bubble.radius this + Bubble.radius other - 2).

(** The object returned by [getGridPosition]. *)
Record GridPos := mkGridPos { gx : float; gy : float; row : float; col : float }.

Definition rowHeight : float := BUBBLE_DIAMETER * sqrt 3 / 2.

(** [getGridPosition(x, y)] *)
Definition getGridPosition (x y : float) : GridPos :=
  let colWidth := BUBBLE_DIAMETER in
  let row := Math_round ((y - BUBBLE_RADIUS) / rowHeight) in
  let col := Math_round ((x - BUBBLE_RADIUS - rem2 row * BUBBLE_RADIUS) / colWidth) in
  let snappedY := BUBBLE_RADIUS + row * rowHeight in
  let snappedX := BUBBLE_RADIUS + col * colWidth + rem2 row * BUBBLE_RADIUS in
  mkGridPos snappedX snappedY row col.

(** ** Game state *)

(** A reference to a [Bubble] object: its index in the heap. *)
Abbreviation ref := nat.

(** The two [alert] dialogs of [checkGameOver], with the score they show. *)
Inductive Alert :=
  | GameOverAlert (finalScore : Z)
  | YouWinAlert (finalScore : Z).

(** The global variables of the script, the heap of [Bubble] objects, and
    what the script leaves with the browser: the animation-frame callbacks
    that are requested and neither run nor cancelled yet, the next handle
    [requestAnimationFrame] will return, the texts written to the score
    display and the alerts shown (both newest first), and the number of
    [Math.random] calls made so far.  Canvas drawing and sound have no
    effect on this state and are left out. *)
Record Game := mkGame {
  heap : list Bubble.t;
  score : Z;
  cannonAngle : float;
  bubbles : list ref;
  gridBubbles : list ref;
  flyingBubble : option ref;
  animationFrameId : option nat;
  frameRequests : list nat;
  nextHandle : nat;
  scoreDisplay : list Z;
  alerts : list Alert;
  randomCalls : nat
}.

Definition set_heap (v : list Bubble.t) (g : Game) : Game :=
  mkGame v (score g) (cannonAngle g) (bubbles g) (gridBubbles g) (flyingBubble g)
    (animationFrameId g) (frameRequests g) (nextHandle g) (scoreDisplay g) (alerts g)
    (randomCalls g).
Definition set_score (v : Z) (g : Game) : Game :=
  mkGame (heap g) v (cannonAngle g) (bubbles g) (gridBubbles g) (flyingBubble g)
    (animationFrameId g) (frameRequests g) (nextHandle g) (scoreDisplay g) (alerts g)
    (randomCalls g).
Definition set_cannonAngle (v : float) (g : Game) : Game :=
  mkGame (heap g) (score g) v (bubbles g) (gridBubbles g) (flyingBubble g)
    (animationFrameId g) (frameRequests g) (nextHandle g) (scoreDisplay g) (alerts g)
    (randomCalls g).
Definition set_bubbles (v : list ref) (g : Game) : Game :=
  mkGame (heap g) (score g) (cannonAngle g) v (gridBubbles g) (flyingBubble g)
    (animationFrameId g) (frameRequests g) (nextHandle g) (scoreDisplay g) (alerts g)
    (randomCalls g).
Definition set_gridBubbles (v : list ref) (g : Game) : Game :=
  mkGame (heap g) (score g) (cannonAngle g) (bubbles g) v (flyingBubble g)
    (animationFrameId g) (frameRequests g) (nextHandle g) (scoreDisplay g) (alerts g)
    (randomCalls g).
Definition set_flyingBubble (v : option ref) (g : Game) : Game :=
  mkGame (heap g) (score g) (cannonAngle g) (bubbles g) (gridBubbles g) v
    (animationFrameId g) (frameRequests g) (nextHandle g) (scoreDisplay g) (alerts g)
    (randomCalls g).
Definition set_animationFrameId (v : option nat) (g : Game) : Game :=
  mkGame (heap g) (score g) (cannonAngle g) (bubbles g) (gridBubbles g) (flyingBubble g)
    v (frameRequests g) (nextHandle g) (scoreDisplay g) (alerts g) (randomCalls g).
Definition set_frameRequests (v : list nat) (g : Game) : Game :=
  mkGame (heap g) (score g) (cannonAngle g) (bubbles g) (gridBubbles g) (flyingBubble g)
    (animationFrameId g) v (nextHandle g) (scoreDisplay g) (alerts g) (randomCalls g).
Definition set_nextHandle (v : nat) (g : Game) : Game :=
  mkGame (heap g) (score g) (cannonAngle g) (bubbles g) (gridBubbles g) (flyingBubble g)
    (animationFrameId g) (frameRequests g) v (scoreDisplay g) (alerts g) (randomCalls g).
Definition set_scoreDisplay (v : list Z) (g : Game) : Game :=
  mkGame (heap g) (score g) (cannonAngle g) (bubbles g) (gridBubbles g) (flyingBubble g)
    (animationFrameId g) (frameRequests g) (nextHandle g) v (alerts g) (randomCalls g).
Definition set_alerts (v : list Alert) (g : Game) : Game :=
  mkGame (heap g) (score g) (cannonAngle g) (bubbles g) (gridBubbles g) (flyingBubble g)
    (animationFrameId g) (frameRequests g) (nextHandle g) (scoreDisplay g) v (randomCalls g).
Definition set_randomCalls (v : nat) (g : Game) : Game :=
  mkGame (heap g) (score g) (cannonAngle g) (bubbles g) (gridBubbles g) (flyingBubble g)
    (animationFrameId g) (frameRequests g) (nextHandle g) (scoreDisplay g) (alerts g) v.

(** The script's globals as declared, before [initGame] runs. *)
Definition game0 : Game :=
  mkGame [] 0%Z 0 [] [] None None [] 1%nat [] [] 0%nat.

(** The object behind a reference. *)
Definition deref (g : Game) (r : ref) : Bubble.t := heap g !!! r.

(** A write to fields of the object behind [r]. *)
Definition modify (r : ref) (f : Bubble.t -> Bubble.t) (g : Game) : Game :=
  set_heap (alter f r (heap g)) g.

(** Allocation of a fresh object. *)
Definition alloc (b : Bubble.t) (g : Game) : ref * Game :=
  (length (heap g), set_heap (heap g ++ [b]) g).

(** [document.getElementById('score-display').textContent = `Score: ${score}`] *)
Definition showScore (g : Game) : Game :=
  set_scoreDisplay (score g :: scoreDisplay g) g.

(** [requestAnimationFrame(gameLoop)]: registers the callback under a fresh
    handle and returns the handle. *)
Definition requestAnimationFrame (g : Game) : nat * Game :=
  (nextHandle g,
   set_nextHandle (S (nextHandle g))
     (set_frameRequests (frameRequests g ++ [nextHandle g]) g)).

(** [cancelAnimationFrame(id)]: drops the request with that handle, if it is
    still pending; any other argument does nothing. *)
Definition cancelAnimationFrame (id : option nat) (g : Game) : Game :=
  match id with
  | Some h => set_frameRequests (List.filter (fun k => negb (k =? h)%nat) (frameRequests g)) g
  | None => g
  end.

(** [array.indexOf(r)] followed by [array.splice(index, 1)] when the index
    is not -1: the first occurrence is removed. *)
Fixpoint removeFirst (r : ref) (l : list ref) : list ref :=
  match l with
  | [] => []
  | a :: l' => if (a =? r)%nat then l' else a :: removeFirst r l'
  end.

(** [this.getNeighbors()] *)
Definition getNeighbors (g : Game) (this : ref) : list ref :=
  List.filter
    (fun gridB => negb (gridB =? this)%nat && isCollidingWith (deref g this) (deref g gridB))
    (gridBubbles g).

(** [getAvailableColorsInGrid()]: a [Set] of strings keeps insertion order,
    so [Array.from] lists each colour at its first occurrence. *)
Definition getAvailableColorsInGrid (g : Game) : list string :=
  fold_left
    (fun colors bubble =>
       let c := Bubble.color (deref g bubble) in
       if existsb (String.eqb c) colors then colors else colors ++ [c])
    (gridBubbles g) [].

(** [getRandomBubbleColor()], given the value [d] its one call of
    [Math.random()] returns.  The index is below the array's length, so the
    default of [nth] (JavaScript's [undefined]) is never returned. *)
Definition getRandomBubbleColor (g : Game) (d : Draw) : string :=
  let availableColors := getAvailableColorsInGrid g in
  if (0 <? length availableColors)%nat then
    nth (randomIndex d (length availableColors)) availableColors "undefined"
  else
    nth (randomIndex d (length BUBBLE_COLORS)) BUBBLE_COLORS "undefined".

(** [getRandomBubbleColor()] inside the game: the next value of the random
    sequence [rand] is consumed. *)
Definition nextColor (rand : nat -> Draw) (g : Game) : string * Game :=
  (getRandomBubbleColor g (rand (randomCalls g)),
   set_randomCalls (S (randomCalls g)) g).

(** ** Initialisation *)

(** The body of the inner loop of [generateInitialGrid] at row [r] and
    column [c]. *)
Definition initialCell (rand : nat -> Draw) (r c : nat) (g : Game) : Game :=
  let colOffset := BUBBLE_RADIUS in
  let isEvenRow := Nat.even r in
  let startX := if isEvenRow then BUBBLE_RADIUS else BUBBLE_RADIUS + colOffset in
  let x := startX + num_of_nat c * BUBBLE_DIAMETER in
  let y := BUBBLE_RADIUS + num_of_nat r * (BUBBLE_DIAMETER * sqrt 3 / 2) in
  if (x <? CANVAS_WIDTH - BUBBLE_RADIUS) && (y <? CANVAS_HEIGHT / 2) then
    let '(c, g1) := nextColor rand g in
    let '(bubble, g2) := alloc (Bubble.new x y c true) g1 in
    set_gridBubbles (gridBubbles g2 ++ [bubble])
      (set_bubbles (bubbles g2 ++ [bubble]) g2)
  else g.

(** The inner loop of [generateInitialGrid] for row [r]. *)
Definition initialRow (rand : nat -> Draw) (g : Game) (r : nat) : Game :=
  fold_left (fun g c => initialCell rand r c g)
    (seq 0 (GRID_COLS - (if Nat.even r then 0 else 1))) g.

(** [generateInitialGrid()] *)
Definition generateInitialGrid (rand : nat -> Draw) (g : Game) : Game :=
  fold_left (initialRow rand) (seq 0 INITIAL_GRID_ROWS) g.

(** [initGame()]: the state reset, the initial grid and the first animation
    frame request (canvas, audio and listener set-up change nothing here). *)
Definition initGame (rand : nat -> Draw) (g : Game) : Game :=
  let g := showScore (set_score 0%Z g) in
  let g := set_flyingBubble None (set_gridBubbles [] (set_bubbles [] g)) in
  let g := generateInitialGrid rand g in
  let '(h, g) := requestAnimationFrame g in
  set_animationFrameId (Some h) g.

(** ** Input handlers *)

(** [handleAim(event)], with the canvas coordinates [getEventCoords]
    computes for the event. *)
Definition handleAim `{MathHost} (coords : float * float) (g : Game) : Game :=
  match flyingBubble g with
  | Some _ => g
  | None =>
      let cannonCenter := (CANVAS_WIDTH / 2, CANVAS_HEIGHT - CANNON_HEIGHT / 2) in
      let dx := fst coords - fst cannonCenter in
      let dy := snd coords - snd cannonCenter in
      if 0 <? dy then g
      else set_cannonAngle (Math_atan2 dy dx) g
  end.

(** [handleShoot(event)] *)
Definition handleShoot `{MathHost} (rand : nat -> Draw) (g : Game) : Game :=
  match flyingBubble g with
  | Some _ => g
  | None =>
      let cannonCenter := (CANVAS_WIDTH / 2, CANVAS_HEIGHT - CANNON_HEIGHT / 2) in
      let shootPoint :=
        (fst cannonCenter + Math_cos (cannonAngle g) * (CANNON_HEIGHT / 2),
         snd cannonCenter + Math_sin (cannonAngle g) * (CANNON_HEIGHT / 2)) in
      let '(c, g) := nextColor rand g in
      let '(b, g) := alloc (Bubble.new (fst shootPoint) (snd shootPoint) c false) g in
      let g := set_flyingBubble (Some b) g in
      let g := modify b (Bubble.set_vx (Math_cos (cannonAngle g) * SHOOT_SPEED)) g in
      let g := modify b (Bubble.set_vy (Math_sin (cannonAngle g) * SHOOT_SPEED)) g in
      set_bubbles (bubbles g ++ [b]) g
  end.

(** ** Flood fill *)

(** The variables of the two breadth-first loops: the queue [q], the set
    [visited] ([connectedToCeiling] in [checkFloatingBubbles]), the array
    [matching] (only [getConnectedSameColorBubbles] has it) and [head]. *)
Record Flood := mkFlood {
  fq : list ref;
  fvisited : gset ref;
  fmatching : list ref;
  fhead : nat
}.

(** The body of [for (const neighbor of current.getNeighbors())]: an
    unvisited neighbour that passes the test [accept] is added to the set,
    the queue and [matching]. *)
Definition visit (accept : ref -> bool) (st : Flood) (neighbor : ref) : Flood :=
  if negb (bool_decide (neighbor ∈ fvisited st)) && accept neighbor then
    mkFlood (fq st ++ [neighbor]) ({[neighbor]} ∪ fvisited st)
      (fmatching st ++ [neighbor]) (fhead st)
  else st.

(** One turn of [while (head < q.length)]: [current = q[head++]], then the
    loop over its neighbours. *)
Definition floodStep (nbrs : ref -> list ref) (accept : ref -> bool) (st : Flood) : Flood :=
  let current := nth (fhead st) (fq st) 0%nat in
  fold_left (visit accept) (nbrs current)
    (mkFlood (fq st) (fvisited st) (fmatching st) (S (fhead st))).

(** [while (head < q.length) { ... }], run for at most [fuel] turns. *)
Fixpoint floodLoop (nbrs : ref -> list ref) (accept : ref -> bool)
    (fuel : nat) (st : Flood) : Flood :=
  match fuel with
  | O => st
  | S fuel' =>
      if (fhead st <? length (fq st))%nat
      then floodLoop nbrs accept fuel' (floodStep nbrs accept st)
      else st
  end.

(** The final loop state of [getConnectedSameColorBubbles(startBubble)].
    Every turn dequeues one entry and every entry but the first is a distinct
    grid bubble, so [S (length gridBubbles)] turns let the loop run until its
    condition fails. *)
Definition sameColorFlood (g : Game) (startBubble : ref) : Flood :=
  floodLoop (getNeighbors g)
    (fun neighbor =>
       String.eqb (Bubble.color (deref g neighbor)) (Bubble.color (deref g startBubble)))
    (S (length (gridBubbles g)))
    (mkFlood [startBubble] {[startBubble]} [startBubble] 0).

(** [getConnectedSameColorBubbles(startBubble)] *)
Definition getConnectedSameColorBubbles (g : Game) (startBubble : ref) : list ref :=
  fmatching (sameColorFlood g startBubble).

(** ** Match and gravity *)

(** [popBubbles(bubblesToPop)] *)
Definition popBubbles (bubblesToPop : list ref) (g : Game) : Game :=
  let g := set_score (score g + Z.of_nat (length bubblesToPop) * POP_SCORE)%Z g in
  let g := showScore g in
  fold_left
    (fun g bubble =>
       let g := modify bubble (Bubble.set_isPopping true) g in
       set_gridBubbles (removeFirst bubble (gridBubbles g)) g)
    bubblesToPop g.

(** [checkMatches(startBubble)] *)
Definition checkMatches (startBubble : ref) (g : Game) : Game :=
  let matchingBubbles := getConnectedSameColorBubbles g startBubble in
  if (3 <=? length matchingBubbles)%nat then popBubbles matchingBubbles g else g.

(** The bubbles [checkFloatingBubbles] starts its queue with. *)
Definition nearCeiling (g : Game) : list ref :=
  List.filter (fun bubble => Bubble.y (deref g bubble) <=? BUBBLE_RADIUS * 2) (gridBubbles g).

(** The final state of the first loop of [checkFloatingBubbles]; its
    [fvisited] is [connectedToCeiling].  The queue holds the start entries
    and then distinct grid bubbles, which bounds the number of turns. *)
Definition ceilingFlood (g : Game) : Flood :=
  let q := nearCeiling g in
  floodLoop (getNeighbors g) (fun _ => true)
    (length q + length (gridBubbles g))
    (mkFlood q (list_to_set q) [] 0).

(** The second loop of [checkFloatingBubbles],
    [for (let i = gridBubbles.length - 1; i >= 0; i--)], entered with
    [i + 1]; it collects [fallingBubbles]. *)
Fixpoint fallLoop (connectedToCeiling : gset ref) (i : nat)
    (g : Game) (fallingBubbles : list ref) : Game * list ref :=
  match i with
  | O => (g, fallingBubbles)
  | S i =>
      match gridBubbles g !! i with
      | Some bubble =>
          if bool_decide (bubble ∈ connectedToCeiling)
          then fallLoop connectedToCeiling i g fallingBubbles
          else
            let g := set_gridBubbles (delete i (gridBubbles g)) g in
            let g := set_bubbles (removeFirst bubble (bubbles g)) g in
            let g := modify bubble (Bubble.set_isGrid false) g in
            let g := modify bubble (Bubble.set_vy 5) g in
            let g := set_score (score g + 5)%Z g in
            fallLoop connectedToCeiling i g (fallingBubbles ++ [bubble])
      | None => fallLoop connectedToCeiling i g fallingBubbles
      end
  end.

(** [checkFloatingBubbles()] *)
Definition checkFloatingBubbles (g : Game) : Game :=
  let connectedToCeiling := fvisited (ceilingFlood g) in
  let '(g, fallingBubbles) := fallLoop connectedToCeiling (length (gridBubbles g)) g [] in
  let g := showScore g in
  set_bubbles (bubbles g ++ fallingBubbles) g.

(** The test of [checkGameOver] on one grid bubble. *)
Definition belowLossLine (b : Bubble.t) : bool :=
  CANVAS_HEIGHT - CANNON_HEIGHT - BUBBLE_RADIUS * 2 <? Bubble.y b + Bubble.radius b.

(** [checkGameOver()] *)
Definition checkGameOver (g : Game) : Game :=
  if existsb (fun bubble => belowLossLine (deref g bubble)) (gridBubbles g) then
    cancelAnimationFrame (animationFrameId g)
      (set_alerts (GameOverAlert (score g) :: alerts g) g)
  else
    match gridBubbles g, flyingBubble g with
    | [], None =>
        cancelAnimationFrame (animationFrameId g)
          (set_alerts (YouWinAlert (score g) :: alerts g) g)
    | _, _ => g
    end.

(** ** The tick *)

(** [flyingBubble.x += flyingBubble.vx; flyingBubble.y += flyingBubble.vy] *)
Definition advance (b : Bubble.t) : Bubble.t :=
  let b := Bubble.set_x (Bubble.x b + Bubble.vx b) b in
  Bubble.set_y (Bubble.y b + Bubble.vy b) b.

(** The condition of the wall collision block of [updateGame]. *)
Definition hitsWall (b : Bubble.t) : bool :=
  (Bubble.x b - Bubble.radius b <? 0) || (CANVAS_WIDTH <? Bubble.x b + Bubble.radius b).

(** The wall collision block of [updateGame]. *)
Definition wallCollision (b : Bubble.t) : Bubble.t :=
  if hitsWall b then
    let b := Bubble.set_vx (Bubble.vx b * -1) b in
    let b := if Bubble.x b - Bubble.radius b <? 0
             then Bubble.set_x (Bubble.radius b) b else b in
    if CANVAS_WIDTH <? Bubble.x b + Bubble.radius b
    then Bubble.set_x (CANVAS_WIDTH - Bubble.radius b) b else b
  else b.

(** [collisionWithGrid()] *)
Definition collisionWithGrid (g : Game) (flying : ref) : bool :=
  existsb (fun gridB => isCollidingWith (deref g flying) (deref g gridB)) (gridBubbles g).

(** [snapBubbleToGrid(bubble)] *)
Definition snapBubbleToGrid (bubble : ref) (g : Game) : Game :=
  let snapped := getGridPosition (Bubble.x (deref g bubble)) (Bubble.y (deref g bubble)) in
  let g := modify bubble (Bubble.set_x (gx snapped)) g in
  modify bubble (Bubble.set_y (gy snapped)) g.

(** The first three statements of the ceiling-or-grid collision branch of
    [updateGame]: the bubble becomes a grid bubble, is snapped and is pushed
    onto [gridBubbles]. *)
Definition place (flying : ref) (g : Game) : Game :=
  let g := modify flying (Bubble.set_isGrid true) g in
  let g := snapBubbleToGrid flying g in
  set_gridBubbles (gridBubbles g ++ [flying]) g.

(** The body of the ceiling-or-grid collision branch of [updateGame]. *)
Definition settle (flying : ref) (g : Game) : Game :=
  let g := place flying g in
  let g := checkMatches flying g in
  let g := set_flyingBubble None g in
  let g := checkFloatingBubbles g in
  checkGameOver g.

(** [updateGame()] *)
Definition updateGame (g : Game) : Game :=
  match flyingBubble g with
  | None => g
  | Some flying =>
      let g := modify flying advance g in
      let g := modify flying wallCollision g in
      if (Bubble.y (deref g flying) - Bubble.radius (deref g flying) <? 0)
         || collisionWithGrid g flying
      then settle flying g
      else g
  end.

(** [bubble.draw()] on a popping bubble: the frame counter advances and the
    result tells whether the bubble is kept. *)
Definition drawPopping (b : Bubble.t) : Bubble.t * bool :=
  let b := Bubble.set_popFrame (S (Bubble.popFrame b)) b in
  (b, negb (10 <=? Bubble.popFrame b)%nat).

(** The callback of [bubbles.filter] in [drawBubbles], applied to the state
    and the entries kept so far: a popping bubble is drawn, which advances
    its animation, and is kept while [draw] returns true; any other bubble is
    kept. *)
Definition drawStep (acc : Game * list ref) (bubble : ref) : Game * list ref :=
  let '(g, kept) := acc in
  if Bubble.isPopping (deref g bubble) then
    let '(b, keep) := drawPopping (deref g bubble) in
    let g := modify bubble (fun _ => b) g in
    (g, if keep then kept ++ [bubble] else kept)
  else (g, kept ++ [bubble]).

(** [drawBubbles()]: the filter over [bubbles]; the second loop only draws. *)
Definition drawBubbles (g : Game) : Game :=
  let '(g, kept) := fold_left drawStep (bubbles g) (g, []) in
  set_bubbles kept g.

(** [drawGame()] *)
Definition drawGame (g : Game) : Game := drawBubbles g.

(** [gameLoop()] *)
Definition gameLoop (g : Game) : Game :=
  let g := updateGame g in
  let g := drawGame g in
  let '(h, g) := requestAnimationFrame g in
  set_animationFrameId (Some h) g.

(** The browser running the oldest pending animation-frame callback: the
    request is removed from the pending ones, then the callback runs. *)
Definition runFrame (g : Game) : Game :=
  match frameRequests g with
  | [] => g
  | _ :: rest => gameLoop (set_frameRequests rest g)
  end.

(** ** A sample host

    Polynomial approximations of the three host functions, exact at the
    arguments ECMAScript fixes.  They serve to run the model; no theorem
    about the game depends on their accuracy. *)

Definition approxPi : float := 0x1.921fb54442d18p+1.

(** The Maclaurin polynomial of the sine, up to the term in [v^21]. *)
Definition sampleSin (v : float) : float :=
  if v =? 0 then v else
  let s := v * v in
  v * (1 - s / 6 * (1 - s / 20 * (1 - s / 42 * (1 - s / 72 * (1 - s / 110 *
      (1 - s / 156 * (1 - s / 210 * (1 - s / 272 * (1 - s / 342 *
      (1 - s / 420)))))))))).

(** The Maclaurin polynomial of the cosine, up to the term in [v^22]. *)
Definition sampleCos (v : float) : float :=
  let s := v * v in
  1 - s / 2 * (1 - s / 12 * (1 - s / 30 * (1 - s / 56 * (1 - s / 90 *
      (1 - s / 132 * (1 - s / 182 * (1 - s / 240 * (1 - s / 306 *
      (1 - s / 380 * (1 - s / 462)))))))))).

(** The arctangent: [atan t = pi/2 - atan (1/t)] above one, two halvings of
    the angle, then the series up to the term in [t^15]. *)
Definition sampleAtan (t : float) : float :=
  let a := abs t in
  let big := 1 <? a in
  let a := if big then 1 / a else a in
  let a := a / (1 + sqrt (1 + a * a)) in
  let a := a / (1 + sqrt (1 + a * a)) in
  let s := a * a in
  let p := a * (1 - s * (1 / 3 - s * (1 / 5 - s * (1 / 7 - s * (1 / 9 -
           s * (1 / 11 - s * (1 / 13 - s / 15))))))) in
  let r := 4 * p in
  let r := if big then approxPi / 2 - r else r in
  if t <? 0 then - r else r.

Definition sampleAtan2 (y x : float) : float :=
  if y =? 0 then
    if (0 <? x) || Leibniz.eqb x 0 then y
    else if Leibniz.eqb y 0 then approxPi else - approxPi
  else if x =? 0 then (if 0 <? y then approxPi / 2 else - (approxPi / 2))
  else if 0 <? x then sampleAtan (y / x)
  else if 0 <? y then sampleAtan (y / x) + approxPi
  else sampleAtan (y / x) - approxPi.

(** A fixed random sequence for runs of the model: every value is [k/7]
    with [k] the call number modulo 7. *)
Definition sampleRand (k : nat) : Draw :=
  mkDraw (k mod 7) 7 (Nat.mod_upper_bound k 7 (Nat.neq_succ_0 6)).

(** * Vocabulary of the statements and sample states *)

(** The sample host: the polynomial approximations are exact at the
    arguments ECMAScript fixes. *)
#[export] Instance sampleHost : MathHost :=
  Build_MathHost sampleSin sampleCos sampleAtan2 eq_refl eq_refl
    (fun v Hv =>
       @eq_ind_r bool true
         (fun c => (if c || Leibniz.eqb v 0 then 0 else approxPi) = 0)
         eq_refl (0 <? v) Hv).

(** All grid bubbles have one colour. *)
Definition monochrome (g : Game) : Prop :=
  forall b1 b2, In b1 (gridBubbles g) -> In b2 (gridBubbles g) ->
    Bubble.color (deref g b1) = Bubble.color (deref g b2).

(** Every grid entry refers to an allocated object. *)
Definition gridAllocated (g : Game) : Prop :=
  forall b, In b (gridBubbles g) -> (b < length (heap g))%nat.

(** The state [initGame] builds the grid from. *)
Definition resetGame (g : Game) : Game :=
  set_flyingBubble None (set_gridBubbles [] (set_bubbles []
    (showScore (set_score 0%Z g)))).

(** One step of the traversal: [b] is a neighbour of [a] that passes the test. *)
Definition floodEdge (nbrs : ref -> list ref) (accept : ref -> bool) (a b : ref) : Prop :=
  In b (nbrs a) /\ accept b = true.

(** [b] is reached from a start entry along steps of the traversal. *)
Definition floodReach (nbrs : ref -> list ref) (accept : ref -> bool)
    (seeds : list ref) (b : ref) : Prop :=
  exists s, In s seeds /\ rtc (floodEdge nbrs accept) s b.

(** What holds of the loop variables before and after every turn: [seeds] is
    the starting queue, [universe] a list that holds every neighbour, and
    [m0] the initial content of [matching]. *)
Definition floodInv (nbrs : ref -> list ref) (accept : ref -> bool)
    (seeds universe m0 : list ref) (st : Flood) : Prop :=
  exists extra,
    fq st = seeds ++ extra /\
    fmatching st = m0 ++ extra /\
    List.NoDup extra /\
    (forall b, In b extra -> In b universe /\ ~ In b seeds) /\
    (forall b, b ∈ fvisited st <-> In b (fq st)) /\
    (forall b, In b (fq st) -> floodReach nbrs accept seeds b) /\
    (forall i b, (i < fhead st)%nat ->
       floodEdge nbrs accept (nth i (fq st) 0%nat) b -> In b (fq st)) /\
    (fhead st <= length (fq st))%nat.

(** Membership in an array of references, as a test. *)
Definition memb (b : ref) (l : list ref) : bool := existsb (Nat.eqb b) l.

(** One step of the same-colour traversal from [seed]: [b] is a grid bubble
    other than [a] that [a] collides with, of the colour of [seed]. *)
Definition sameColorStep (g : Game) (seed a b : ref) : Prop :=
  In b (getNeighbors g a) /\
  Bubble.color (deref g b) = Bubble.color (deref g seed).

(** The connected same-colour component of [seed]. *)
Definition sameColorComponent (g : Game) (seed b : ref) : Prop :=
  rtc (sameColorStep g seed) seed b.

(** The loop of [popBubbles]. *)
Definition popLoop (bubblesToPop : list ref) (g : Game) : Game :=
  fold_left
    (fun g bubble =>
       let g := modify bubble (Bubble.set_isPopping true) g in
       set_gridBubbles (removeFirst bubble (gridBubbles g)) g)
    bubblesToPop g.

(** What [checkFloatingBubbles] writes to a bubble it lets fall. *)
Definition makeFall (b : Bubble.t) : Bubble.t :=
  Bubble.set_vy 5 (Bubble.set_isGrid false b).

(** [b] hangs from the ceiling: some grid bubble that passes the test of the
    first loop of [checkFloatingBubbles] leads to it along neighbours. *)
Definition supported (g : Game) (b : ref) : Prop :=
  exists s, In s (gridBubbles g) /\
    (Bubble.y (deref g s) <=? BUBBLE_RADIUS * 2) = true /\
    rtc (fun a c => In c (getNeighbors g a)) s b.

(** The bubbles the second loop of [checkFloatingBubbles] lets fall, in the
    order it meets them (from the end of the grid array). *)
Definition floating (g : Game) : list ref :=
  rev (List.filter (fun b => negb (bool_decide (b ∈ fvisited (ceilingFlood g))))
         (gridBubbles g)).

(** A bubble one tick before it meets the right wall. *)
Definition nearRightWall : Bubble.t :=
  Bubble.mk 378 300 "red" BUBBLE_RADIUS false 8 (-6) false 0.

(** The position [getGridPosition] returns for a cell. *)
Definition cellCenter (row col : float) : GridPos :=
  mkGridPos (BUBBLE_RADIUS + col * BUBBLE_DIAMETER + rem2 row * BUBBLE_RADIUS)
            (BUBBLE_RADIUS + row * rowHeight) row col.




(** The flying bubble of a state, if any. *)
Definition flying (g : Game) : option Bubble.t :=
  deref g <$> flyingBubble g.

(** The bubble a shot creates. *)
Definition shotBubble `{MathHost} (rand : nat -> Draw) (g : Game) : Bubble.t :=
  Bubble.mk
    (CANVAS_WIDTH / 2 + Math_cos (cannonAngle g) * (CANNON_HEIGHT / 2))
    (CANVAS_HEIGHT - CANNON_HEIGHT / 2 + Math_sin (cannonAngle g) * (CANNON_HEIGHT / 2))
    (getRandomBubbleColor g (rand (randomCalls g)))
    BUBBLE_RADIUS false
    (Math_cos (cannonAngle g) * SHOOT_SPEED)
    (Math_sin (cannonAngle g) * SHOOT_SPEED)
    false 0.


(** The cell [getGridPosition] assigns to a bubble. *)
Definition cellOf (b : Bubble.t) : GridPos :=
  getGridPosition (Bubble.x b) (Bubble.y b).





(** [b] is neither the flying bubble nor a grid bubble, and is not popping:
    the state of a bubble that [checkFloatingBubbles] let fall. *)
Definition detached (b : ref) (g : Game) : Prop :=
  flyingBubble g <> Some b /\ ~ In b (gridBubbles g) /\
  Bubble.isPopping (deref g b) = false.

(** What happens to the game: the browser runs an animation frame, the
    pointer moves to a canvas point, or the pointer is pressed. *)
Inductive Event :=
  | Frame
  | PointerMove (x y : float)
  | PointerDown.

Definition applyEvent `{MathHost} (rand : nat -> Draw) (g : Game) (e : Event) : Game :=
  match e with
  | Frame => runFrame g
  | PointerMove x y => handleAim (x, y) g
  | PointerDown => handleShoot rand g
  end.

(** The state after a sequence of events. *)
Definition play `{MathHost} (rand : nat -> Draw) (events : list Event) (g : Game) : Game :=
  fold_left (applyEvent rand) events g.

(** The flying bubble, if there is one, is an allocated object. *)
Definition flyingAllocated (g : Game) : Prop :=
  forall f, flyingBubble g = Some f -> (f < length (heap g))%nat.


(** The game after [initGame], with the sample random sequence. *)
Definition initialGame : Game := initGame sampleRand game0.

(** The initial grid after a gravity pass: rows 1 to 4 have fallen. *)
Definition fallenGame : Game := checkFloatingBubbles initialGame.



(** The events of one shot straight up followed by sixty frames. *)
Definition shotAndFrames : list Event :=
  PointerMove 200 100 :: PointerDown :: repeat Frame 60.

(** The test of the filter of [drawBubbles] on an entry of [bubbles]: a
    popping bubble is dropped by the draw that brings its frame counter
    to 10. *)
Definition stays (g : Game) (b : ref) : bool :=
  negb (Bubble.isPopping (deref g b) && (10 <=? S (Bubble.popFrame (deref g b)))%nat).

(** What [draw] does to the object: the frame counter of a popping bubble
    advances. *)
Definition drawn (b : Bubble.t) : Bubble.t :=
  if Bubble.isPopping b then Bubble.set_popFrame (S (Bubble.popFrame b)) b else b.

(** [n] calls of [drawBubbles]. *)
Definition drawTimes (n : nat) (g : Game) : Game := Nat.iter n drawBubbles g.

(** A state with one bubble that has just been popped and one that has not. *)
Definition poppingGame : Game :=
  mkGame
    [Bubble.mk 100 20 "red" BUBBLE_RADIUS true 0 0 true 0;
     Bubble.mk 140 20 "blue" BUBBLE_RADIUS true 0 0 false 0]
    10%Z 0 [0; 1]%nat [1%nat] None (Some 1%nat) [1%nat] 2%nat [10%Z] [] 2%nat.

(** The state without the heap and the two arrays: the score, the cannon
    angle, the flying bubble and what the browser holds. *)
Definition control (g : Game) : Game :=
  set_heap [] (set_bubbles [] (set_gridBubbles [] g)).

(** The state a settle leaves when [n] points were scored: the score
    display shows the new score once for the match pass, if it popped, and
    once for the gravity pass. *)
Definition scored (n : Z) (g : Game) : Game := showScore (set_score (score g + n)%Z g).

(** The score element shows the current score. *)
Definition scoreShown (g : Game) : Prop :=
  hd_error (scoreDisplay g) = Some (score g).

(** Exactly one animation-frame request is pending, the one whose handle
    [animationFrameId] holds. *)
Definition oneFramePending (g : Game) : Prop :=
  exists h, frameRequests g = [h] /\ animationFrameId g = Some h.

(** What [checkGameOver] shows when no bubble is flying: the game-over alert
    if a grid bubble reaches below the line above the cannon, else the win
    alert if the grid is empty, else nothing. *)
Definition verdict (g : Game) : list Alert :=
  if existsb (fun bubble => belowLossLine (deref g bubble)) (gridBubbles g)
  then [GameOverAlert (score g)]
  else match gridBubbles g with
       | [] => [YouWinAlert (score g)]
       | _ => []
       end.

(** The two arrays are well formed: neither repeats an entry, every entry
    of [bubbles] is an allocated object, and every grid bubble is drawn
    (it is in [bubbles]), is flagged [isGrid] and is not popping. *)
Definition gridOK (g : Game) : Prop :=
  List.NoDup (gridBubbles g) /\ List.NoDup (bubbles g) /\
  (forall b, In b (bubbles g) -> (b < length (heap g))%nat) /\
  (forall b, In b (gridBubbles g) ->
     In b (bubbles g) /\ Bubble.isGrid (deref g b) = true /\
     Bubble.isPopping (deref g b) = false).

(** The flying bubble, if there is one, is drawn, is no grid bubble, is not
    flagged [isGrid] and is not popping. *)
Definition flyingOK (g : Game) : Prop :=
  forall f, flyingBubble g = Some f ->
    In f (bubbles g) /\ ~ In f (gridBubbles g) /\
    Bubble.isGrid (deref g f) = false /\ Bubble.isPopping (deref g f) = false.

Definition wellFormed (g : Game) : Prop := gridOK g /\ flyingOK g.

(** The centres of the hexagonal cells in and around the canvas: rows -2 to
    18, columns -2 to 11. *)
Definition canvasCentres : list (float * float) :=
  flat_map
    (fun r => map (fun c => (gx (cellCenter r c), gy (cellCenter r c)))
                  (map (fun k => num_of_Z (Z.of_nat k - 2)) (seq 0 14)))
    (map (fun k => num_of_Z (Z.of_nat k - 2)) (seq 0 21)).

(** The bubble has the constructor's radius and lies at one of these
    centres. *)
Definition atCanvasCell (b : Bubble.t) : bool :=
  Leibniz.eqb (Bubble.radius b) BUBBLE_RADIUS &&
  existsb (fun p => Leibniz.eqb (Bubble.x b) p.1 && Leibniz.eqb (Bubble.y b) p.2)
          canvasCentres.

(** Two bubbles at the same position. *)
Definition samePosition (a b : Bubble.t) : bool :=
  Leibniz.eqb (Bubble.x a) (Bubble.x b) && Leibniz.eqb (Bubble.y a) (Bubble.y b).

(** Every grid bubble lies at a cell centre of the canvas, and no two
    entries of the grid array lie at the same one. *)
Definition snappedGrid (g : Game) : bool :=
  forallb
    (fun a => atCanvasCell (deref g a) &&
              forallb (fun b => (a =? b)%nat || negb (samePosition (deref g a) (deref g b)))
                      (gridBubbles g))
    (gridBubbles g).

(** [isCollidingWith] for two bubbles of the constructor's radius at the
    points [p] and [q]. *)
Definition touching (p q : float * float) : bool :=
  isCollidingWith (Bubble.new p.1 p.2 "" true) (Bubble.new q.1 q.2 "" true).

(** The state right after the first press of a game. *)
Definition inFlightGame : Game := handleShoot sampleRand initialGame.

(** A bubble in horizontal flight at the height of the cannon, at abscissa
    [p.1] with horizontal velocity [p.2]. *)
Definition bouncer (c : string) (p : float * float) : Bubble.t :=
  Bubble.mk p.1 580 c BUBBLE_RADIUS false p.2 0 false 0.

(** Abscissa and horizontal velocity after one tick of such a flight. *)
Definition bounce (p : float * float) : float * float :=
  let b := wallCollision (advance (bouncer "" p)) in (Bubble.x b, Bubble.vx b).

(** The first [n] states of the flight from [p]. *)
Fixpoint orbit (n : nat) (p : float * float) : list (float * float) :=
  match n with
  | O => []
  | S n' => p :: orbit n' (bounce p)
  end.

(** The states of the flight that starts at the muzzle of the unturned
    cannon: from 220 to the right wall, back to the left wall, and again. *)
Definition horizontalCycle : list (float * float) := orbit 80 (220, 10).

Definition samePair (p q : float * float) : bool :=
  Leibniz.eqb p.1 q.1 && Leibniz.eqb p.2 q.2.

(** Bubble 45 flies along the cannon line over the 45 objects [h0], which
    form the grid. *)
Definition adriftOver (h0 : list Bubble.t) (g : Game) : Prop :=
  exists c p, In p horizontalCycle /\
    heap g = h0 ++ [bouncer c p] /\
    gridBubbles g = seq 0 45 /\ bubbles g = seq 0 46 /\
    flyingBubble g = Some 45%nat /\ score g = 0%Z /\ alerts g = [].

(** The state is that of a game whose first press came before any aim: the
    initial grid is untouched and bubble 45 flies along the cannon line. *)
Definition adrift (rand : nat -> Draw) (g : Game) : Prop :=
  adriftOver (heap (initGame rand game0)) g.

(** No state of the flight touches one of the first 45 objects of [h0], and
    none of these is popping. *)
Definition clearOf (h0 : list Bubble.t) : bool :=
  forallb (fun q =>
    negb (existsb (fun gb => isCollidingWith (bouncer "" q) (h0 !!! gb)) (seq 0 45)))
    horizontalCycle &&
  forallb (fun b => negb (Bubble.isPopping (h0 !!! b))) (seq 0 45).

(** The bubbles the match pass of a settle pops: the component of the
    settled bubble in the grid it was pushed onto, if it has three members
    or more. *)
Definition poppedBy (f : ref) (g : Game) : list ref :=
  let comp := getConnectedSameColorBubbles (place f g) f in
  if (3 <=? length comp)%nat then comp else [].

(** The bubbles the gravity pass of a settle lets fall. *)
Definition fallenBy (f : ref) (g : Game) : list ref :=
  floating (set_flyingBubble None (checkMatches f (place f g))).

(** Two red bubbles [A] and [B] under the ceiling, a blue one [C] hanging
    from [B], and a red flying bubble about to settle next to [A]. *)
Definition settleGame : Game :=
  mkGame
    [Bubble.mk 63 20 "red" BUBBLE_RADIUS true 0 0 false 0;
     Bubble.mk 98 20 "red" BUBBLE_RADIUS true 0 0 false 0;
     Bubble.mk 98 55 "blue" BUBBLE_RADIUS true 0 0 false 0;
     Bubble.mk 58 22 "red" BUBBLE_RADIUS false 0 (-10) false 0]
    0%Z 0 [0; 1; 2; 3]%nat [0; 1; 2]%nat (Some 3%nat) (Some 1%nat) [1%nat] 2%nat
    [0%Z] [] 4%nat.

(** * Theorems *)

(** * The colour chooser *)

Section Colours.
Variable g : Game.

Lemma addColour_spec (grid : list ref) (acc : list string) :
  let res := fold_left
    (fun colors bubble =>
       let c := Bubble.color (deref g bubble) in
       if existsb (String.eqb c) colors then colors else colors ++ [c])
    grid acc in
  (forall c, In c res <-> In c acc \/ In c (map (fun b => Bubble.color (deref g b)) grid))
  /\ (List.NoDup acc -> List.NoDup res).
Proof.
  revert acc. induction grid as [|b grid IH]; intros acc; cbn zeta.
  - simpl. split; [intros c; tauto | auto].
  - simpl fold_left. set (c0 := Bubble.color (deref g b)).
    destruct (existsb (String.eqb c0) acc) eqn:Hex.
    + destruct (IH acc) as [IH1 IH2]. split; [|exact IH2].
      intros c. rewrite IH1. simpl. fold c0.
      apply existsb_exists in Hex as (c1 & Hin & Heq).
      apply String.eqb_eq in Heq. subst c1.
      split; [tauto|]. intros [H|[H|H]]; auto. subst. auto.
    + destruct (IH (acc ++ [c0])) as [IH1 IH2]. split.
      * intros c. rewrite IH1, in_app_iff. simpl. fold c0. tauto.
      * intros Hnd. apply IH2. apply NoDup_ListNoDup.
        apply NoDup_app. split; [by apply NoDup_ListNoDup|].
        split; [|apply NoDup_singleton].
        intros x Hx Hx'. apply list_elem_of_singleton in Hx'. subst x.
        assert (existsb (String.eqb c0) acc = true) as Habs; [|congruence].
        apply existsb_exists. exists c0. split.
        -- by apply list_elem_of_In.
        -- apply String.eqb_refl.
Qed.

Lemma availableColours_iff (c : string) :
  In c (getAvailableColorsInGrid g) <->
  exists b, In b (gridBubbles g) /\ Bubble.color (deref g b) = c.
Proof.
  unfold getAvailableColorsInGrid.
  destruct (addColour_spec (gridBubbles g) []) as [H _]. cbn zeta in H.
  rewrite H, in_map_iff. simpl. split.
  - intros [[]|(b & Hb & Hin)]. eauto.
  - intros (b & Hin & Hb). right. eauto.
Qed.



Lemma availableColours_nonempty :
  gridBubbles g <> [] -> (0 < length (getAvailableColorsInGrid g))%nat.
Proof.
  intros Hne. destruct (gridBubbles g) as [|b l] eqn:Hg; [done|].
  assert (In (Bubble.color (deref g b)) (getAvailableColorsInGrid g)) as Hin.
  { apply availableColours_iff. exists b. rewrite Hg. simpl. auto. }
  destruct (getAvailableColorsInGrid g); simpl in *; [tauto | lia].
Qed.
End Colours.

Lemma randomIndex_lt (d : Draw) (n : nat) : (0 < n)%nat -> (randomIndex d n < n)%nat.
Proof.
  intros Hn. unfold randomIndex. pose proof (draw_lt d) as Hd.
  apply Nat.Div0.div_lt_upper_bound. nia.
Qed.


Lemma chooser_from (l : list string) (d : Draw) :
  (0 < length l)%nat -> In (nth (randomIndex d (length l)) l "undefined") l.
Proof. intros Hl. apply nth_In. by apply randomIndex_lt. Qed.


Lemma getRandomBubbleColor_present (g : Game) (d : Draw) :
  gridBubbles g <> [] ->
  In (getRandomBubbleColor g d) (getAvailableColorsInGrid g).
Proof.
  intros Hne. unfold getRandomBubbleColor.
  pose proof (availableColours_nonempty g Hne) as Hlen.
  apply Nat.ltb_lt in Hlen as Hlt. rewrite Hlt. by apply chooser_from.
Qed.


(** * The initial grid *)

Lemma deref_alloc_old (b : Bubble.t) (g : Game) (r : ref) :
  (r < length (heap g))%nat -> deref (snd (alloc b g)) r = deref g r.
Proof. intros Hr. unfold deref. simpl. by apply lookup_total_app_l. Qed.

Lemma deref_alloc_new (b : Bubble.t) (g : Game) :
  deref (snd (alloc b g)) (fst (alloc b g)) = b.
Proof.
  unfold deref. simpl. rewrite lookup_total_app_r by lia.
  by rewrite Nat.sub_diag.
Qed.

Lemma fold_left_invariant {A B : Type} (P : A -> Prop) (f : A -> B -> A) (l : list B) :
  (forall a b, P a -> P (f a b)) -> forall a, P a -> P (fold_left f l a).
Proof. intros Hf. induction l as [|b l IH]; simpl; auto. Qed.

Lemma initialCell_monochrome (rand : nat -> Draw) (r c : nat) (g : Game) :
  monochrome g /\ gridAllocated g ->
  monochrome (initialCell rand r c g) /\ gridAllocated (initialCell rand r c g).
Proof.
  intros [Hm Ha]. unfold initialCell. cbv zeta.
  match goal with |- context [if ?t then _ else _] => destruct t end; [|done].
  unfold nextColor.
  set (g1 := set_randomCalls (S (randomCalls g)) g).
  set (cl := getRandomBubbleColor g (rand (randomCalls g))).
  set (nb := Bubble.new _ _ cl true).
  assert (forall k, (k < length (heap g))%nat ->
            deref (snd (alloc nb g1)) k = deref g k) as Hold.
  { intros k Hk. by rewrite deref_alloc_old. }
  assert (deref (snd (alloc nb g1)) (length (heap g)) = nb) as Hnew.
  { apply (deref_alloc_new nb g1). }
  assert (forall b, In b (gridBubbles g) -> Bubble.color (deref g b) = cl) as Hcl.
  { intros b Hb.
    assert (gridBubbles g <> []) as Hne by (intros Heq; by rewrite Heq in Hb).
    pose proof (getRandomBubbleColor_present g (rand (randomCalls g)) Hne) as Hin.
    apply availableColours_iff in Hin as (b' & Hb' & Hc). fold cl in Hc. rewrite <- Hc. by apply Hm. }
  simpl. split.
  - intros b1 b2 H1 H2. change (heap g ++ [nb]) with (heap (snd (alloc nb g1))).
    apply in_app_iff in H1, H2. simpl in H1, H2.
    assert (forall b, In b (gridBubbles g) \/ length (heap g) = b \/ False ->
              Bubble.color (heap (snd (alloc nb g1)) !!! b) = cl) as Hall.
    { intros b [Hb|[<-|[]]].
      - change (Bubble.color (deref (snd (alloc nb g1)) b) = cl).
        rewrite Hold by by apply Ha. by apply Hcl.
      - change (Bubble.color (deref (snd (alloc nb g1)) (length (heap g))) = cl).
        by rewrite Hnew. }
    unfold deref. simpl. simpl in Hall. by rewrite !Hall.
  - intros b Hb. unfold gridAllocated in Ha. simpl in Hb |- *.
    apply in_app_iff in Hb. simpl in Hb.
    rewrite ?length_app, ?List.length_app. simpl.
    destruct Hb as [Hb|[<-|[]]]; [apply Ha in Hb|]; lia.
Qed.

Lemma generateInitialGrid_monochrome (rand : nat -> Draw) (g : Game) :
  monochrome g /\ gridAllocated g ->
  monochrome (generateInitialGrid rand g) /\ gridAllocated (generateInitialGrid rand g).
Proof.
  unfold generateInitialGrid.
  apply (fold_left_invariant (fun g => monochrome g /\ gridAllocated g)).
  intros a r Ha. unfold initialRow.
  revert Ha. apply (fold_left_invariant (fun g => monochrome g /\ gridAllocated g)).
  intros a' c. apply initialCell_monochrome.
Qed.

Lemma initGame_grid (rand : nat -> Draw) (g : Game) :
  gridBubbles (initGame rand g) = gridBubbles (generateInitialGrid rand (resetGame g)) /\
  heap (initGame rand g) = heap (generateInitialGrid rand (resetGame g)).
Proof.
  unfold initGame, resetGame.
  generalize (generateInitialGrid rand
    (set_flyingBubble None (set_gridBubbles [] (set_bubbles []
       (showScore (set_score 0%Z g)))))).
  intros g'. split; reflexivity.
Qed.

Lemma initGame_deref (rand : nat -> Draw) (g : Game) (b : ref) :
  deref (initGame rand g) b = deref (generateInitialGrid rand (resetGame g)) b.
Proof. unfold deref. by rewrite (proj2 (initGame_grid rand g)). Qed.

(** C5. For every sequence [rand] of values of [Math.random()] and every
    state [initGame] is run from, the initial grid is monochrome: every
    bubble of the grid has the colour of the first one. *)
Theorem initial_grid_monochrome (rand : nat -> Draw) (g0 : Game) :
  let g := initGame rand g0 in
  forall first rest, gridBubbles g = first :: rest ->
    forall b, In b rest -> Bubble.color (deref g b) = Bubble.color (deref g first).
Proof.
  intros g first rest Hg b Hb. subst g.
  rewrite !initGame_deref.
  rewrite (proj1 (initGame_grid rand g0)) in Hg.
  pose proof (generateInitialGrid_monochrome rand (resetGame g0)) as Hgen.
  destruct Hgen as [Hm _].
  { split; intros b1; unfold resetGame; simpl; tauto. }
  apply Hm; rewrite Hg; [right; exact Hb | left; reflexivity].
Qed.

(** * Flood fill *)

Section FloodFill.
Variable nbrs : ref -> list ref.
Variable accept : ref -> bool.
(** The starting queue, and a list that holds every neighbour. *)
Variable seeds : list ref.
Variable universe : list ref.
Hypothesis nbrs_universe : forall a b, In b (nbrs a) -> In b universe.

Lemma visit_fold (l : list ref) (st : Flood) :
  let st' := fold_left (visit accept) l st in
  fhead st' = fhead st /\
  exists extra,
    fq st' = fq st ++ extra /\
    fmatching st' = fmatching st ++ extra /\
    List.NoDup extra /\
    (forall b, In b extra -> In b l /\ accept b = true /\ b ∉ fvisited st) /\
    (forall b, b ∈ fvisited st' <-> b ∈ fvisited st \/ In b extra) /\
    (forall b, In b l -> accept b = true -> b ∈ fvisited st').
Proof.
  revert st. induction l as [|n l IH]; intros st; cbn zeta.
  - simpl. split; [reflexivity|]. exists []. rewrite !app_nil_r.
    split; [reflexivity|]. split; [reflexivity|]. split; [constructor|].
    split; [intros b []|]. split; [intros b; simpl; tauto|]. intros b [].
  - simpl fold_left. specialize (IH (visit accept st n)). cbn zeta in IH.
    destruct IH as (Hh & extra & Hq & Hm & Hnd & Hex & Hvis & Hall).
    unfold visit in Hh, Hq, Hm, Hex, Hvis, Hall |- *.
    destruct (negb (bool_decide (n ∈ fvisited st)) && accept n) eqn:Hc.
    + apply andb_true_iff in Hc as [Hnv Hacc].
      apply negb_true_iff, bool_decide_eq_false in Hnv.
      cbn [fq fvisited fmatching fhead] in *.
      split; [exact Hh|]. exists (n :: extra).
      rewrite <- !app_assoc in Hq, Hm. simpl in Hq, Hm.
      split; [exact Hq|]. split; [exact Hm|]. split.
      { constructor; [|exact Hnd]. intros Hin. apply Hex in Hin as (_ & _ & Hin).
        apply Hin, elem_of_union_l, elem_of_singleton. reflexivity. }
      split.
      { intros b [<-|Hb]; [simpl; auto|].
        apply Hex in Hb as (H1 & H2 & H3). split; [simpl; auto|]. split; [exact H2|].
        intros Hb. apply H3, elem_of_union_r, Hb. }
      split.
      { intros b. rewrite Hvis, elem_of_union, elem_of_singleton. simpl.
        split; [intros [[->|H]|H]|intros [H|[->|H]]]; auto. }
      intros b [<-|Hb] Hab.
      * apply Hvis. left. apply elem_of_union_l, elem_of_singleton. reflexivity.
      * by apply Hall.
    + split; [exact Hh|]. exists extra.
      split; [exact Hq|]. split; [exact Hm|]. split; [exact Hnd|]. split.
      { intros b Hb. apply Hex in Hb as (H1 & H2 & H3). simpl. auto. }
      split; [exact Hvis|].
      intros b [<-|Hb] Hab; [|by apply Hall].
      apply Hvis. left.
      rewrite Hab, andb_true_r in Hc. apply negb_false_iff in Hc.
      by apply bool_decide_eq_true in Hc.
Qed.

Lemma floodStep_inv (m0 : list ref) (st : Flood) :
  floodInv nbrs accept seeds universe m0 st -> (fhead st < length (fq st))%nat ->
  floodInv nbrs accept seeds universe m0 (floodStep nbrs accept st) /\
  fhead (floodStep nbrs accept st) = S (fhead st).
Proof.
  intros (extra & Hq & Hm & Hnd & Hex & Hvis & Hreach & Hclosed & Hle) Hlt.
  unfold floodStep.
  set (cur := nth (fhead st) (fq st) 0%nat).
  set (st1 := mkFlood (fq st) (fvisited st) (fmatching st) (S (fhead st))).
  destruct (visit_fold (nbrs cur) st1) as (Hh & ex2 & Hq2 & Hm2 & Hnd2 & Hex2 & Hvis2 & Hall2).
  cbn [fq fvisited fmatching fhead st1] in *.
  split; [|exact Hh].
  assert (In cur (fq st)) as Hcur by (apply nth_In; lia).
  exists (extra ++ ex2). rewrite Hq2, Hm2, Hq, Hm, <- !app_assoc.
  split; [reflexivity|]. split; [reflexivity|]. split.
  { apply NoDup_ListNoDup, NoDup_app. split; [by apply NoDup_ListNoDup|].
    split; [|by apply NoDup_ListNoDup].
    intros b Hb Hb2. apply list_elem_of_In in Hb, Hb2.
    apply Hex2 in Hb2 as (_ & _ & Hnv). apply Hnv, Hvis.
    rewrite Hq. apply in_app_iff. auto. }
  split.
  { intros b Hb. apply in_app_iff in Hb as [Hb|Hb]; [by apply Hex|].
    apply Hex2 in Hb as (Hn & _ & Hnv). split; [by eapply nbrs_universe|].
    intros Hs. apply Hnv, Hvis. rewrite Hq. apply in_app_iff. auto. }
  split.
  { intros b. rewrite Hvis2, Hvis, Hq, !in_app_iff. tauto. }
  split.
  { intros b Hb. rewrite !app_assoc, <- Hq in Hb.
    apply in_app_iff in Hb as [Hb|Hb]; [by apply Hreach|].
    apply Hex2 in Hb as (Hn & Ha & _).
    destruct (Hreach cur Hcur) as (s & Hs & Hrtc).
    exists s. split; [exact Hs|]. eapply rtc_r; [exact Hrtc|]. by split. }
  split.
  { intros i b Hi Hedge. rewrite !app_assoc, <- Hq in Hedge |- *.
    assert (i < fhead st \/ i = fhead st)%nat as [Hi'| ->] by lia.
    - rewrite app_nth1 in Hedge by lia. apply in_app_iff. left. by eapply Hclosed.
    - rewrite app_nth1 in Hedge by lia. fold cur in Hedge. destruct Hedge as [Hn Ha].
      specialize (Hall2 b Hn Ha). apply Hvis2 in Hall2 as [Hb|Hb].
      + apply in_app_iff. left. by apply Hvis.
      + apply in_app_iff. by right. }
  rewrite Hh. rewrite !app_assoc, <- Hq, length_app. lia.
Qed.

Lemma floodInv_length (m0 : list ref) (st : Flood) :
  floodInv nbrs accept seeds universe m0 st -> (length (fq st) <= length seeds + length universe)%nat.
Proof.
  intros (extra & Hq & _ & Hnd & Hex & _). rewrite Hq, length_app.
  assert (length extra <= length universe)%nat; [|lia].
  apply NoDup_incl_length; [exact Hnd|]. intros b Hb. by apply Hex.
Qed.

(** With enough fuel the loop runs until its condition fails. *)
Lemma floodLoop_inv (m0 : list ref) (fuel : nat) (st : Flood) :
  floodInv nbrs accept seeds universe m0 st ->
  (length seeds + length universe <= fuel + fhead st)%nat ->
  floodInv nbrs accept seeds universe m0 (floodLoop nbrs accept fuel st) /\
  fhead (floodLoop nbrs accept fuel st) = length (fq (floodLoop nbrs accept fuel st)).
Proof.
  revert st. induction fuel as [|fuel IH]; intros st Hinv Hfuel; simpl.
  - split; [exact Hinv|]. pose proof (floodInv_length m0 st Hinv).
    destruct Hinv as (extra & _ & _ & _ & _ & _ & _ & _ & Hle). lia.
  - destruct (fhead st <? length (fq st))%nat eqn:Hlt.
    + apply Nat.ltb_lt in Hlt. destruct (floodStep_inv m0 st Hinv Hlt) as [Hinv' Hh].
      apply IH; [exact Hinv'|]. rewrite Hh. lia.
    + apply Nat.ltb_ge in Hlt. split; [exact Hinv|].
      destruct Hinv as (extra & _ & _ & _ & _ & _ & _ & _ & Hle). lia.
Qed.

(** A finished traversal has queued exactly what is reached from the start
    entries. *)
Lemma floodInv_complete (m0 : list ref) (st : Flood) :
  floodInv nbrs accept seeds universe m0 st -> fhead st = length (fq st) ->
  forall b, In b (fq st) <-> floodReach nbrs accept seeds b.
Proof.
  intros Hinv Hdone b. pose proof Hinv as (extra & Hq & _ & _ & _ & _ & Hreach & Hclosed & _).
  split; [apply Hreach|].
  intros (s & Hs & Hrtc).
  assert (In s (fq st)) as Hin by (rewrite Hq; apply in_app_iff; auto).
  clear Hs. induction Hrtc as [|a c d Hac _ IH]; [exact Hin|].
  apply IH. destruct (In_nth _ _ 0%nat Hin) as (i & Hi & Hnth).
  apply (Hclosed i c); [lia|]. by rewrite Hnth.
Qed.

Lemma floodInv_init (m0 : list ref) :
  floodInv nbrs accept seeds universe m0 (mkFlood seeds (list_to_set seeds) m0 0).
Proof.
  exists []. cbn [fq fvisited fmatching fhead]. rewrite !app_nil_r.
  split; [reflexivity|]. split; [reflexivity|]. split; [constructor|].
  split; [intros b []|]. split.
  { intros b. rewrite elem_of_list_to_set. apply list_elem_of_In. }
  split.
  { intros b Hb. exists b. split; [exact Hb|]. constructor. }
  split; [intros i b Hi; simpl in Hi; lia|]. simpl. lia.
Qed.
End FloodFill.

(** * The match pass *)

Lemma memb_In (b : ref) (l : list ref) : memb b l = true <-> In b l.
Proof.
  unfold memb. rewrite existsb_exists. split.
  - intros (x & Hx & Heq). apply Nat.eqb_eq in Heq. by subst.
  - intros Hb. exists b. split; [exact Hb|]. apply Nat.eqb_refl.
Qed.

Lemma memb_not_In (b : ref) (l : list ref) : memb b l = false <-> ~ In b l.
Proof. rewrite <- memb_In. destruct (memb b l); split; congruence. Qed.

Lemma getNeighbors_iff (g : Game) (a b : ref) :
  In b (getNeighbors g a) <->
  In b (gridBubbles g) /\ b <> a /\ isCollidingWith (deref g a) (deref g b) = true.
Proof.
  unfold getNeighbors. rewrite filter_In, andb_true_iff, negb_true_iff, Nat.eqb_neq.
  tauto.
Qed.

Lemma getNeighbors_grid (g : Game) (a b : ref) :
  In b (getNeighbors g a) -> In b (gridBubbles g).
Proof. intros H. by apply getNeighbors_iff in H as [H _]. Qed.

Lemma removeFirst_filter (r : ref) (l : list ref) :
  List.NoDup l -> removeFirst r l = List.filter (fun a => negb (a =? r)%nat) l.
Proof.
  induction 1 as [|a l Hnotin Hnd IH]; [reflexivity|]. simpl.
  destruct (a =? r)%nat eqn:Har; simpl.
  - apply Nat.eqb_eq in Har. subst a. symmetry. apply forallb_filter_id.
    apply forallb_forall. intros x Hx. apply negb_true_iff, Nat.eqb_neq.
    intros ->. contradiction.
  - by rewrite IH.
Qed.

Lemma filter_NoDup (f : ref -> bool) (l : list ref) :
  List.NoDup l -> List.NoDup (List.filter f l).
Proof. apply List.NoDup_filter. Qed.

Lemma deref_modify (r b : ref) (f : Bubble.t -> Bubble.t) (g : Game) :
  deref (modify r f g) b =
  if (b =? r)%nat && (b <? length (heap g))%nat then f (deref g b) else deref g b.
Proof.
  unfold deref, modify. simpl. rewrite list_lookup_total_alter.
  destruct (b =? r)%nat eqn:Hbr; simpl.
  - apply Nat.eqb_eq in Hbr. subst r.
    destruct (b <? length (heap g))%nat eqn:Hlt.
    + apply Nat.ltb_lt in Hlt. by rewrite decide_True.
    + apply Nat.ltb_ge in Hlt. rewrite decide_False; [reflexivity|lia].
  - apply Nat.eqb_neq in Hbr. rewrite decide_False; [reflexivity|]. intros [-> _]. done.
Qed.

Lemma length_heap_modify (r : ref) (f : Bubble.t -> Bubble.t) (g : Game) :
  length (heap (modify r f g)) = length (heap g).
Proof. unfold modify. simpl. apply length_alter. Qed.

Lemma filter_memb_cons (r : ref) (l gr : list ref) :
  List.filter (fun b => negb (memb b l)) (List.filter (fun a => negb (a =? r)%nat) gr)
  = List.filter (fun b => negb (memb b (r :: l))) gr.
Proof.
  induction gr as [|a gr IHg]; [reflexivity|]. simpl.
  destruct (a =? r)%nat eqn:Hra; simpl; [exact IHg|].
  destruct (memb a l); simpl; [exact IHg | by rewrite IHg].
Qed.

Lemma popLoop_cons (r : ref) (l : list ref) (g : Game) :
  popLoop (r :: l) g =
  popLoop l (set_gridBubbles
               (removeFirst r (gridBubbles (modify r (Bubble.set_isPopping true) g)))
               (modify r (Bubble.set_isPopping true) g)).
Proof. reflexivity. Qed.

Lemma popLoop_spec (l : list ref) (g : Game) :
  List.NoDup (gridBubbles g) ->
  let g' := popLoop l g in
  score g' = score g /\ scoreDisplay g' = scoreDisplay g /\
  bubbles g' = bubbles g /\ flyingBubble g' = flyingBubble g /\
  length (heap g') = length (heap g) /\
  gridBubbles g' = List.filter (fun b => negb (memb b l)) (gridBubbles g) /\
  (forall b, deref g' b =
     if memb b l && (b <? length (heap g))%nat
     then Bubble.set_isPopping true (deref g b) else deref g b).
Proof.
  revert g. induction l as [|r l IH]; intros g Hnd; cbn zeta.
  - simpl. repeat split; try reflexivity.
    symmetry. apply forallb_filter_id. by apply forallb_forall.
  - rewrite popLoop_cons.
    set (g1 := set_gridBubbles _ _).
    assert (List.NoDup (gridBubbles g1)) as Hnd1.
    { subst g1. simpl. rewrite removeFirst_filter by exact Hnd. by apply filter_NoDup. }
    destruct (IH g1 Hnd1) as (Hs & Hd & Hb & Hf & Hl & Hg & Hh).
    rewrite Hs, Hd, Hb, Hf, Hl, Hg.
    subst g1. simpl. rewrite length_alter.
    repeat split; try reflexivity.
    + rewrite removeFirst_filter by exact Hnd. apply filter_memb_cons.
    + intros b. rewrite Hh. cbn [heap set_gridBubbles].
      change (heap (modify r (Bubble.set_isPopping true) g))
        with (alter (Bubble.set_isPopping true) r (heap g)).
      rewrite length_alter.
      change (deref (set_gridBubbles ?x ?y) b) with (deref y b).
      rewrite deref_modify.
      change (memb b (r :: l)) with ((b =? r)%nat || memb b l).
      destruct (b =? r)%nat, (memb b l), (b <? length (heap g))%nat; reflexivity.
Qed.

Lemma sameColorFlood_inv (g : Game) (seed : ref) :
  let nb := getNeighbors g in
  let acc := fun n => String.eqb (Bubble.color (deref g n)) (Bubble.color (deref g seed)) in
  floodInv nb acc [seed] (gridBubbles g) [seed] (sameColorFlood g seed) /\
  fhead (sameColorFlood g seed) = length (fq (sameColorFlood g seed)).
Proof.
  cbv zeta. unfold sameColorFlood. apply floodLoop_inv.
  - apply getNeighbors_grid.
  - replace ({[seed]} : gset ref) with (list_to_set [seed] : gset ref)
      by apply union_empty_r_L.
    apply floodInv_init.
  - simpl. lia.
Qed.

Lemma sameColor_reach (g : Game) (seed b : ref) :
  floodReach (getNeighbors g)
    (fun n => String.eqb (Bubble.color (deref g n)) (Bubble.color (deref g seed)))
    [seed] b <-> sameColorComponent g seed b.
Proof.
  unfold floodReach, sameColorComponent. split.
  - intros (s & [<-|[]] & Hrtc). eapply rtc_subrel; [|exact Hrtc].
    intros a c [Hn Hc]. split; [exact Hn|]. by apply String.eqb_eq.
  - intros Hrtc. exists seed. split; [by left|]. eapply rtc_subrel; [|exact Hrtc].
    intros a c [Hn Hc]. split; [exact Hn|]. by apply String.eqb_eq.
Qed.

Lemma getConnectedSameColorBubbles_spec (g : Game) (seed : ref) :
  let comp := getConnectedSameColorBubbles g seed in
  (forall b, In b comp <-> sameColorComponent g seed b) /\
  (List.NoDup (seed :: tail comp) /\ comp = seed :: tail comp) /\
  (forall b, In b (tail comp) -> In b (gridBubbles g) /\ b <> seed).
Proof.
  cbv zeta. unfold getConnectedSameColorBubbles.
  destruct (sameColorFlood_inv g seed) as [Hinv Hdone]. cbv zeta in Hinv.
  pose proof (floodInv_complete _ _ _ _ _ _ Hinv Hdone) as Hcomp.
  destruct Hinv as (extra & Hq & Hm & Hnd & Hex & _).
  rewrite Hm. simpl. rewrite Hq in Hcomp. simpl in Hcomp.
  split; [|split; [split; [|reflexivity]|]].
  - intros b. rewrite <- sameColor_reach. apply Hcomp.
  - constructor; [|exact Hnd]. intros Hin. apply Hex in Hin as [_ Hin].
    apply Hin. by left.
  - intros b Hb. apply Hex in Hb as [Hu Hs]. split; [exact Hu|].
    intros ->. apply Hs. by left.
Qed.

Lemma popBubbles_popLoop (l : list ref) (g : Game) :
  popBubbles l g =
  popLoop l (showScore (set_score (score g + Z.of_nat (length l) * POP_SCORE)%Z g)).
Proof. reflexivity. Qed.


(** * The gravity pass *)

Lemma makeFall_idem (b : Bubble.t) : makeFall (makeFall b) = makeFall b.
Proof. reflexivity. Qed.

Lemma deref_makeFall (b x : ref) (g : Game) (bs gs : list ref) (z : Z) :
  deref (set_score z
           (modify b (Bubble.set_vy 5)
              (modify b (Bubble.set_isGrid false)
                 (set_bubbles bs (set_gridBubbles gs g))))) x
  = if (x =? b)%nat && (x <? length (heap g))%nat
    then makeFall (deref g x) else deref g x.
Proof.
  change (deref (set_score z ?y) x) with (deref y x).
  rewrite deref_modify, length_heap_modify, deref_modify.
  change (deref (set_bubbles bs (set_gridBubbles gs g)) x) with (deref g x).
  change (heap (set_bubbles bs (set_gridBubbles gs g))) with (heap g).
  destruct ((x =? b)%nat && (x <? length (heap g))%nat); reflexivity.
Qed.

Lemma fallLoop_spec (conn : gset ref) (i : nat) :
  forall (g : Game) (acc : list ref),
  (i <= length (gridBubbles g))%nat ->
  let r := fallLoop conn i g acc in
  let dropped :=
    rev (List.filter (fun b => negb (bool_decide (b ∈ conn))) (take i (gridBubbles g))) in
  gridBubbles r.1 =
    List.filter (fun b => bool_decide (b ∈ conn)) (take i (gridBubbles g))
    ++ drop i (gridBubbles g) /\
  r.2 = acc ++ dropped /\
  score r.1 = (score g + 5 * Z.of_nat (length dropped))%Z /\
  bubbles r.1 = fold_left (fun l b => removeFirst b l) dropped (bubbles g) /\
  (forall b, deref r.1 b =
     if memb b dropped && (b <? length (heap g))%nat
     then makeFall (deref g b) else deref g b) /\
  length (heap r.1) = length (heap g) /\
  scoreDisplay r.1 = scoreDisplay g /\ flyingBubble r.1 = flyingBubble g /\
  alerts r.1 = alerts g /\ frameRequests r.1 = frameRequests g /\
  animationFrameId r.1 = animationFrameId g /\ nextHandle r.1 = nextHandle g /\
  cannonAngle r.1 = cannonAngle g /\ randomCalls r.1 = randomCalls g.
Proof.
  induction i as [|i IH]; intros g acc Hi; cbn zeta.
  - simpl. rewrite ?app_nil_r.
    repeat split; try reflexivity. lia.
  - simpl fallLoop.
    destruct (lookup_lt_is_Some_2 (gridBubbles g) i) as [b Hb]; [lia|].
    rewrite Hb. rewrite (take_S_r _ _ _ Hb), List.filter_app, (List.filter_app _ (take i _)).
    cbn [List.filter].
    destruct (bool_decide (b ∈ conn)) eqn:Hconn; cbn [negb].
    + rewrite !app_nil_r.
      destruct (IH g acc) as (H1 & H2 & H3 & H4 & H5 & H6); [lia|].
      rewrite H1, H2, H3, H4. rewrite <- app_assoc. rewrite (drop_S _ _ _ Hb).
      split; [reflexivity|]. split; [reflexivity|]. split; [reflexivity|].
      split; [reflexivity|]. split; [exact H5|]. exact H6.
    + set (g1 := set_score _ _).
      assert (gridBubbles g1 = delete i (gridBubbles g)) as Hg1 by reflexivity.
      assert (take i (gridBubbles g1) = take i (gridBubbles g)) as Htake.
      { rewrite Hg1, delete_take_drop. rewrite take_app_le by (rewrite length_take; lia).
        rewrite take_take. f_equal. lia. }
      assert (drop i (gridBubbles g1) = drop (S i) (gridBubbles g)) as Hdrop.
      { rewrite Hg1, delete_take_drop. apply drop_app_length'.
        rewrite length_take. lia. }
      destruct (IH g1 (acc ++ [b])) as (H1 & H2 & H3 & H4 & H5 & H6 & H7).
      { rewrite Hg1. rewrite length_delete by eauto. lia. }
      rewrite Htake, Hdrop in *.
      set (dropped := rev (List.filter _ (take i (gridBubbles g)))) in *.
      rewrite H1, H2, H3, H4, H6.
      rewrite rev_app_distr. cbn [rev app]. rewrite app_nil_r.
      split; [reflexivity|]. split; [by rewrite <- app_assoc|].
      split.
      { subst g1. unfold modify.
        cbn [score set_score set_heap set_bubbles set_gridBubbles length].
        unfold dropped. lia. }
      split; [reflexivity|]. split.
      * intros x. rewrite H5. subst g1. rewrite deref_makeFall.
        unfold dropped, memb. cbn [existsb].
        change (heap (set_score ?s ?y)) with (heap y).
        rewrite !length_heap_modify.
        change (heap (set_bubbles ?bs (set_gridBubbles ?gs g))) with (heap g).
        destruct (x =? b)%nat, (existsb _ _), (x <? length (heap g))%nat; reflexivity.
      * split; [|exact H7]. subst g1.
        change (heap (set_score ?s ?y)) with (heap y).
        rewrite !length_heap_modify. reflexivity.
Qed.

Lemma nearCeiling_iff (g : Game) (s : ref) :
  In s (nearCeiling g) <->
  In s (gridBubbles g) /\ (Bubble.y (deref g s) <=? BUBBLE_RADIUS * 2) = true.
Proof. unfold nearCeiling. apply filter_In. Qed.

Lemma ceilingFlood_inv (g : Game) :
  floodInv (getNeighbors g) (fun _ => true) (nearCeiling g) (gridBubbles g) []
    (ceilingFlood g) /\
  fhead (ceilingFlood g) = length (fq (ceilingFlood g)).
Proof.
  unfold ceilingFlood. apply floodLoop_inv.
  - apply getNeighbors_grid.
  - apply floodInv_init.
  - simpl. lia.
Qed.

Lemma connectedToCeiling_iff (g : Game) (b : ref) :
  b ∈ fvisited (ceilingFlood g) <-> supported g b.
Proof.
  destruct (ceilingFlood_inv g) as [Hinv Hdone].
  pose proof (floodInv_complete _ _ _ _ _ _ Hinv Hdone b) as Hcomp.
  destruct Hinv as (extra & _ & _ & _ & _ & Hvis & _).
  rewrite Hvis, Hcomp. unfold floodReach, supported, floodEdge. split.
  - intros (s & Hs & Hrtc). apply nearCeiling_iff in Hs as [Hs Hy].
    exists s. split; [exact Hs|]. split; [exact Hy|].
    eapply rtc_subrel; [|exact Hrtc]. by intros a c [Hn _].
  - intros (s & Hs & Hy & Hrtc). exists s. split; [by apply nearCeiling_iff|].
    eapply rtc_subrel; [|exact Hrtc]. by intros a c Hn.
Qed.

Lemma supported_grid (g : Game) (b : ref) : supported g b -> In b (gridBubbles g).
Proof.
  intros (s & Hs & _ & Hrtc). revert b Hrtc.
  apply (rtc_ind_r (fun z => In z (gridBubbles g))); [exact Hs|].
  intros c d _ Hcd _. by eapply getNeighbors_grid.
Qed.

Lemma floating_iff (g : Game) (b : ref) :
  In b (floating g) <-> In b (gridBubbles g) /\ ~ supported g b.
Proof.
  unfold floating. rewrite <- in_rev, filter_In, negb_true_iff, bool_decide_eq_false.
  by rewrite connectedToCeiling_iff.
Qed.

Lemma checkFloatingBubbles_unfold (g : Game) :
  checkFloatingBubbles g =
  let r := fallLoop (fvisited (ceilingFlood g)) (length (gridBubbles g)) g [] in
  set_bubbles (bubbles (showScore r.1) ++ r.2) (showScore r.1).
Proof.
  unfold checkFloatingBubbles.
  destruct (fallLoop _ _ _ _) as [g1 fl]. reflexivity.
Qed.

(** The state after the gravity pass, field by field. *)
Lemma checkFloatingBubbles_fields (g : Game) :
  let g' := checkFloatingBubbles g in
  gridBubbles g' =
    List.filter (fun b => bool_decide (b ∈ fvisited (ceilingFlood g))) (gridBubbles g) /\
  bubbles g' =
    fold_left (fun l b => removeFirst b l) (floating g) (bubbles g) ++ floating g /\
  score g' = (score g + 5 * Z.of_nat (length (floating g)))%Z /\
  scoreDisplay g' = score g' :: scoreDisplay g /\
  (forall b, deref g' b =
     if memb b (floating g) && (b <? length (heap g))%nat
     then makeFall (deref g b) else deref g b) /\
  length (heap g') = length (heap g) /\
  flyingBubble g' = flyingBubble g /\ alerts g' = alerts g /\
  frameRequests g' = frameRequests g /\ animationFrameId g' = animationFrameId g /\
  nextHandle g' = nextHandle g /\ cannonAngle g' = cannonAngle g /\
  randomCalls g' = randomCalls g.
Proof.
  cbv zeta. rewrite checkFloatingBubbles_unfold. cbv zeta.
  destruct (fallLoop_spec (fvisited (ceilingFlood g)) (length (gridBubbles g)) g [])
    as (H1 & H2 & H3 & H4 & H5 & H6 & H7 & H8 & H9 & H10 & H11 & H12 & H13 & H14);
    [lia|].
  rewrite take_ge in * by lia. rewrite drop_all, app_nil_r in H1.
  fold (floating g) in *.
  cbn [gridBubbles bubbles score scoreDisplay heap flyingBubble alerts frameRequests
       animationFrameId nextHandle cannonAngle randomCalls set_bubbles showScore
       set_scoreDisplay].
  rewrite H1, H2, H3, H4, H6, H7, H8, H9, H10, H11, H12, H13, H14.
  repeat split; try reflexivity. intros b.
  change (deref (set_bubbles ?x (showScore ?y)) b) with (deref y b). apply H5.
Qed.


(** * Multiplication by [-1] is negation *)

Lemma iter_shr_1_double (p : positive) (k : nat) :
  Nat.iter k shr_1 (Build_shr_record (Zpos (Nat.iter k xO p)) false false)
  = Build_shr_record (Zpos p) false false.
Proof.
  induction k as [|k IH]; [reflexivity|].
  rewrite Nat.iter_succ_r. simpl. exact IH.
Qed.

Lemma digits2_pos_double (p : positive) (k : nat) :
  Zpos (digits2_pos (Nat.iter k xO p)) = (Zpos (digits2_pos p) + Z.of_nat k)%Z.
Proof.
  induction k as [|k IH]; [simpl; lia|].
  rewrite Nat.iter_succ. cbn [digits2_pos]. lia.
Qed.

Lemma round_times_two52 (s : bool) (m : positive) (e : Z) :
  bounded prec emax m e = true ->
  binary_round_aux prec emax s (Zpos (m * 4503599627370496)) (e + -52) loc_Exact
  = S754_finite s m e.
Proof.
  intros Hb. unfold bounded, canonical_mantissa in Hb.
  apply andb_true_iff in Hb as [Hc He]. apply Z.eqb_eq in Hc.
  assert ((m * 4503599627370496)%positive = Nat.iter 52 xO m) as ->.
  { rewrite Pos.mul_comm. reflexivity. }
  unfold binary_round_aux, shr_fexp, Zdigits2.
  rewrite digits2_pos_double.
  replace (Z.pos (digits2_pos m) + Z.of_nat 52 + (e + -52))%Z
    with (Z.pos (digits2_pos m) + e)%Z by lia.
  rewrite Hc. replace (e - (e + -52))%Z with 52%Z by lia.
  unfold shr, shr_record_of_loc.
  change (SpecFloat.iter_pos shr_1 52%positive ?r) with (Nat.iter 52 shr_1 r).
  rewrite iter_shr_1_double.
  cbn [shr_m loc_of_shr_record round_nearest_even Zdigits2].
  replace (e + -52 + 52)%Z with e by lia.
  rewrite Hc, Z.sub_diag. cbn [shr_m]. rewrite He. reflexivity.
Qed.

Lemma mul_neg_one (v : float) : v * -1 = - v.
Proof.
  apply Prim2SF_inj. rewrite mul_spec, opp_spec.
  change (Prim2SF (-1)) with (S754_finite true 4503599627370496 (-52)).
  pose proof (Prim2SF_valid v) as Hv.
  destruct (Prim2SF v) as [s|s| |s m e]; cbn [SFopp].
  - unfold SF64mul, SFmul. now rewrite xorb_true_r.
  - unfold SF64mul, SFmul. now rewrite xorb_true_r.
  - reflexivity.
  - unfold SF64mul, SFmul. rewrite xorb_true_r. now apply round_times_two52.
Qed.

(** * Wall reflection *)

Lemma abs_opp (v : float) : abs (- v) = abs v.
Proof.
  apply Prim2SF_inj. rewrite !abs_spec, opp_spec.
  by destruct (Prim2SF v).
Qed.

(** C7. Whenever the horizontal extent of the flying bubble, advanced by
    its velocity, exceeds [0, CANVAS_WIDTH], the wall collision block negates
    [vx], so its magnitude is unchanged, and leaves the x-coordinate within
    [BUBBLE_RADIUS, CANVAS_WIDTH - BUBBLE_RADIUS]; the other fields are those
    of the advanced bubble. *)
Theorem wall_reflection (b0 : Bubble.t) :
  Bubble.radius b0 = BUBBLE_RADIUS ->
  hitsWall (advance b0) = true ->
  let b := wallCollision (advance b0) in
  Bubble.vx b = - Bubble.vx b0 /\
  abs (Bubble.vx b) = abs (Bubble.vx b0) /\
  (BUBBLE_RADIUS <=? Bubble.x b) = true /\
  (Bubble.x b <=? CANVAS_WIDTH - BUBBLE_RADIUS) = true /\
  Bubble.y b = Bubble.y (advance b0) /\ Bubble.vy b = Bubble.vy b0.
Proof.
  intros Hr Hhit b. subst b. unfold wallCollision. rewrite Hhit.
  unfold hitsWall in Hhit. destruct b0 as [x y c r ig vx vy ip pf].
  cbn in Hr. subst r. cbn in Hhit |- *.
  rewrite mul_neg_one.
  destruct (x + vx - BUBBLE_RADIUS <? 0) eqn:Hleft; cbn.
  - change (CANVAS_WIDTH <? BUBBLE_RADIUS + BUBBLE_RADIUS) with false. cbn.
    rewrite abs_opp. repeat split; reflexivity.
  - cbn in Hhit. rewrite Hhit. cbn. rewrite abs_opp. repeat split; reflexivity.
Qed.

Lemma wall_reflection_witness :
  Bubble.radius nearRightWall = BUBBLE_RADIUS /\
  hitsWall (advance nearRightWall) = true /\
  Bubble.vx (wallCollision (advance nearRightWall)) = -8 /\
  Bubble.x (wallCollision (advance nearRightWall)) = 380.
Proof.
  split; [reflexivity|]. split; [reflexivity|].
  destruct (wall_reflection nearRightWall eq_refl eq_refl) as (Hvx & _).
  split; [exact Hvx|]. reflexivity.
Defined.

(** * Snapping *)








(** * Aiming and shooting *)

Lemma alter_last (f : Bubble.t -> Bubble.t) (l : list Bubble.t) (b : Bubble.t) :
  alter f (length l) (l ++ [b]) = l ++ [f b].
Proof.
  rewrite <- (Nat.add_0_r (length l)). by rewrite alter_app_r.
Qed.

Lemma handleShoot_unfold `{MathHost} (rand : nat -> Draw) (g : Game) :
  flyingBubble g = None ->
  handleShoot rand g =
  mkGame (heap g ++ [shotBubble rand g]) (score g) (cannonAngle g)
    (bubbles g ++ [length (heap g)]) (gridBubbles g) (Some (length (heap g)))
    (animationFrameId g) (frameRequests g) (nextHandle g) (scoreDisplay g)
    (alerts g) (S (randomCalls g)).
Proof.
  intros Hf. unfold handleShoot, nextColor, alloc. rewrite Hf.
  cbv beta iota zeta. cbn [fst snd]. unfold modify.
  cbn [heap set_heap set_flyingBubble set_randomCalls set_bubbles cannonAngle].
  rewrite !alter_last. reflexivity.
Qed.




(** * Placement *)

Lemma place_deref (f : ref) (g : Game) :
  (f < length (heap g))%nat ->
  gridBubbles (place f g) = gridBubbles g ++ [f] /\
  deref (place f g) f =
    Bubble.set_y (gy (cellOf (deref g f)))
      (Bubble.set_x (gx (cellOf (deref g f)))
         (Bubble.set_isGrid true (deref g f))) /\
  (forall b, b <> f -> deref (place f g) b = deref g b).
Proof.
  intros Hf. apply Nat.ltb_lt in Hf. unfold place, snapBubbleToGrid, cellOf. cbv zeta.
  split; [reflexivity|].
  split.
  - change (deref (set_gridBubbles ?l ?y) f) with (deref y f).
    rewrite !deref_modify, !length_heap_modify, Nat.eqb_refl, Hf. reflexivity.
  - intros b Hb. apply Nat.eqb_neq in Hb.
    change (deref (set_gridBubbles ?l ?y) b) with (deref y b).
    rewrite !deref_modify. by rewrite Hb.
Qed.




(** * Bubbles outside the grid *)

Lemma In_removeFirst (r b : ref) (l : list ref) :
  In b (removeFirst r l) -> In b l.
Proof.
  induction l as [|a l IH]; simpl; [tauto|].
  destruct (a =? r)%nat; simpl; tauto.
Qed.

Lemma In_removeFirst_ne (r b : ref) (l : list ref) :
  b <> r -> In b l -> In b (removeFirst r l).
Proof.
  intros Hne. induction l as [|a l IH]; simpl; [tauto|].
  destruct (a =? r)%nat eqn:Har; simpl.
  - apply Nat.eqb_eq in Har. subst a. intros [->|H]; [done|exact H].
  - intros [->|H]; auto.
Qed.

Lemma popLoop_frame (l : list ref) (g : Game) :
  (forall b, ~ In b l -> deref (popLoop l g) b = deref g b) /\
  (forall b, In b (gridBubbles (popLoop l g)) -> In b (gridBubbles g)) /\
  bubbles (popLoop l g) = bubbles g /\
  flyingBubble (popLoop l g) = flyingBubble g /\
  score (popLoop l g) = score g /\
  length (heap (popLoop l g)) = length (heap g).
Proof.
  revert g. induction l as [|r l IH]; intros g; [by repeat split|].
  rewrite popLoop_cons. set (g1 := set_gridBubbles _ _).
  destruct (IH g1) as (H1 & H2 & H3 & H4 & H5 & H6). rewrite H3, H4, H5, H6.
  split; [|split; [|repeat split; try reflexivity; apply length_heap_modify]].
  - intros b Hb. rewrite H1 by (intros Hin; apply Hb; by right).
    subst g1. change (deref (set_gridBubbles ?x ?y) b) with (deref y b).
    rewrite deref_modify. destruct (b =? r)%nat eqn:Hbr; [|reflexivity].
    apply Nat.eqb_eq in Hbr. subst. exfalso. apply Hb. by left.
  - intros b Hb. apply H2 in Hb. by apply In_removeFirst in Hb.
Qed.

Lemma checkMatches_frame (seed b : ref) (g : Game) :
  b <> seed -> ~ In b (gridBubbles g) ->
  deref (checkMatches seed g) b = deref g b /\
  ~ In b (gridBubbles (checkMatches seed g)) /\
  bubbles (checkMatches seed g) = bubbles g /\
  flyingBubble (checkMatches seed g) = flyingBubble g /\
  length (heap (checkMatches seed g)) = length (heap g).
Proof.
  intros Hne Hnot. unfold checkMatches.
  destruct (3 <=? length (getConnectedSameColorBubbles g seed))%nat; [|by repeat split].
  rewrite popBubbles_popLoop.
  destruct (getConnectedSameColorBubbles_spec g seed) as (_ & [_ Heq] & Htail).
  set (comp := getConnectedSameColorBubbles g seed) in *.
  set (g1 := showScore _).
  destruct (popLoop_frame comp g1) as (H1 & H2 & H3 & H4 & _ & H6).
  assert (~ In b comp) as Hb.
  { rewrite Heq. intros [->|Hin]; [done|]. apply Htail in Hin as [Hin _]. done. }
  split; [by rewrite H1|]. split; [|by repeat split].
  intros Hin. by apply H2 in Hin.
Qed.

Lemma floating_grid (g : Game) (b : ref) : In b (floating g) -> In b (gridBubbles g).
Proof.
  unfold floating. rewrite <- in_rev, filter_In. tauto.
Qed.

Lemma fold_removeFirst_In (l bs : list ref) (b : ref) :
  ~ In b l -> In b bs -> In b (fold_left (fun acc r => removeFirst r acc) l bs).
Proof.
  revert bs. induction l as [|r l IH]; intros bs Hnot Hin; [exact Hin|].
  simpl. apply IH; [intros H; apply Hnot; by right|].
  apply In_removeFirst_ne; [|exact Hin]. intros ->. apply Hnot. by left.
Qed.

Lemma checkFloatingBubbles_frame (b : ref) (g : Game) :
  ~ In b (gridBubbles g) ->
  deref (checkFloatingBubbles g) b = deref g b /\
  ~ In b (gridBubbles (checkFloatingBubbles g)) /\
  (In b (bubbles g) -> In b (bubbles (checkFloatingBubbles g))) /\
  flyingBubble (checkFloatingBubbles g) = flyingBubble g /\
  length (heap (checkFloatingBubbles g)) = length (heap g).
Proof.
  intros Hnot.
  destruct (checkFloatingBubbles_fields g) as (Hg & Hb & _ & _ & Hd & Hl & Hf & _).
  assert (~ In b (floating g)) as Hfl by (intros H; by apply floating_grid in H).
  split.
  { rewrite Hd. apply memb_not_In in Hfl. by rewrite Hfl. }
  split.
  { rewrite Hg, filter_In. tauto. }
  split; [|by split].
  intros Hin. rewrite Hb. apply in_app_iff. left. by apply fold_removeFirst_In.
Qed.

Lemma cancelAnimationFrame_frame (id : option nat) (g : Game) :
  heap (cancelAnimationFrame id g) = heap g /\
  gridBubbles (cancelAnimationFrame id g) = gridBubbles g /\
  bubbles (cancelAnimationFrame id g) = bubbles g /\
  flyingBubble (cancelAnimationFrame id g) = flyingBubble g /\
  score (cancelAnimationFrame id g) = score g /\
  animationFrameId (cancelAnimationFrame id g) = animationFrameId g /\
  nextHandle (cancelAnimationFrame id g) = nextHandle g /\
  alerts (cancelAnimationFrame id g) = alerts g.
Proof. destruct id; by repeat split. Qed.

Lemma checkGameOver_cases (g : Game) :
  checkGameOver g = g \/
  exists a, checkGameOver g = cancelAnimationFrame (animationFrameId g) (set_alerts a g).
Proof.
  unfold checkGameOver. destruct (existsb _ _); [right; eauto|].
  destruct (gridBubbles g); [|by left].
  destruct (flyingBubble g); [by left|right; eauto].
Qed.

Lemma checkGameOver_frame (g : Game) :
  heap (checkGameOver g) = heap g /\
  gridBubbles (checkGameOver g) = gridBubbles g /\
  bubbles (checkGameOver g) = bubbles g /\
  flyingBubble (checkGameOver g) = flyingBubble g /\
  score (checkGameOver g) = score g /\
  animationFrameId (checkGameOver g) = animationFrameId g /\
  nextHandle (checkGameOver g) = nextHandle g.
Proof.
  destruct (checkGameOver_cases g) as [->|[a ->]]; [by repeat split|].
  destruct (cancelAnimationFrame_frame (animationFrameId g) (set_alerts a g))
    as (H1 & H2 & H3 & H4 & H5 & H6 & H7 & _).
  rewrite H1, H2, H3, H4, H5, H6, H7. by repeat split.
Qed.

Lemma settle_frame (f b : ref) (g : Game) :
  (f < length (heap g))%nat -> b <> f -> ~ In b (gridBubbles g) ->
  deref (settle f g) b = deref g b /\
  ~ In b (gridBubbles (settle f g)) /\
  (In b (bubbles g) -> In b (bubbles (settle f g))) /\
  flyingBubble (settle f g) = None /\
  length (heap (settle f g)) = length (heap g).
Proof.
  intros Hf Hne Hnot. unfold settle. cbv zeta.
  destruct (place_deref f g Hf) as (Hpg & _ & Hpd).
  set (g1 := place f g) in *.
  assert (~ In b (gridBubbles g1)) as Hn1.
  { rewrite Hpg, in_app_iff. simpl. intros [H|[H|[]]]; [done|]. by subst. }
  destruct (checkMatches_frame f b g1 Hne Hn1) as (Hm1 & Hm2 & Hm3 & Hm4 & Hm5).
  set (g2 := checkMatches f g1) in *.
  set (g3 := set_flyingBubble None g2).
  destruct (checkFloatingBubbles_frame b g3 Hm2) as (Hc1 & Hc2 & Hc3 & Hc4 & Hc5).
  set (g4 := checkFloatingBubbles g3) in *.
  destruct (checkGameOver_frame g4) as (Hh & Hg & Hb & Hfl & _).
  assert (deref (checkGameOver g4) b = deref g4 b) as Hd
    by (unfold deref; by rewrite Hh).
  rewrite Hd, Hg, Hb, Hfl.
  split.
  { rewrite Hc1. change (deref g3 b) with (deref g2 b). by rewrite Hm1, Hpd. }
  split; [exact Hc2|]. split.
  { intros Hin. apply Hc3. change (bubbles g3) with (bubbles g2). rewrite Hm3.
    exact Hin. }
  split; [exact Hc4|].
  rewrite Hh, Hc5. change (heap g3) with (heap g2). rewrite Hm5.
  subst g1. unfold place, snapBubbleToGrid. cbv zeta.
  change (heap (set_gridBubbles ?l ?y)) with (heap y).
  by rewrite !length_heap_modify.
Qed.

Lemma updateGame_frame (b : ref) (g : Game) :
  (forall f, flyingBubble g = Some f -> (f < length (heap g))%nat) ->
  detached b g ->
  deref (updateGame g) b = deref g b /\
  detached b (updateGame g) /\
  (In b (bubbles g) -> In b (bubbles (updateGame g))) /\
  (forall f, flyingBubble (updateGame g) = Some f -> flyingBubble g = Some f) /\
  length (heap (updateGame g)) = length (heap g).
Proof.
  intros Hfa Hdet. pose proof Hdet as (Hfl & Hgr & Hpop). unfold updateGame.
  destruct (flyingBubble g) as [f|] eqn:Hf.
  2:{ split; [reflexivity|]. split; [exact Hdet|]. split; [tauto|].
      split; [intros f' Hf'; congruence|reflexivity]. }
  assert (b <> f) as Hne by (intros ->; done).
  specialize (Hfa f eq_refl).
  set (g2 := modify f wallCollision (modify f advance g)).
  assert (forall c, c <> f -> deref g2 c = deref g c) as Hd2.
  { intros c Hc. subst g2. rewrite !deref_modify. apply Nat.eqb_neq in Hc. by rewrite Hc. }
  assert (length (heap g2) = length (heap g)) as Hl2.
  { subst g2. by rewrite !length_heap_modify. }
  destruct (_ || _).
  - destruct (settle_frame f b g2) as (H1 & H2 & H3 & H4 & H5); [lia|exact Hne|exact Hgr|].
    split; [by rewrite H1, Hd2|]. split.
    { split; [by rewrite H4|]. split; [exact H2|]. by rewrite H1, Hd2. }
    split; [exact H3|]. split; [by rewrite H4|]. by rewrite H5.
  - split; [by apply Hd2|]. split.
    { split; [change (flyingBubble g <> Some b); by rewrite Hf|].
      split; [exact Hgr|]. by rewrite Hd2. }
    split; [tauto|]. split; [|exact Hl2].
    intros f' Hf'. change (flyingBubble g = Some f') in Hf'. congruence.
Qed.

Lemma drawBubbles_unfold (g : Game) :
  drawBubbles g =
  set_bubbles (fold_left drawStep (bubbles g) (g, [])).2
              (fold_left drawStep (bubbles g) (g, [])).1.
Proof.
  unfold drawBubbles.
  by destruct (fold_left drawStep (bubbles g) (g, [])).
Qed.

Lemma drawStep_popping (g : Game) (kept : list ref) (a : ref) :
  Bubble.isPopping (deref g a) = true ->
  drawStep (g, kept) a =
  (modify a (fun _ => Bubble.set_popFrame (S (Bubble.popFrame (deref g a))) (deref g a)) g,
   if (10 <=? S (Bubble.popFrame (deref g a)))%nat then kept else kept ++ [a]).
Proof.
  intros Ha. unfold drawStep, drawPopping. rewrite Ha. cbv zeta.
  cbn [Bubble.popFrame Bubble.set_popFrame]. by destruct (10 <=? _)%nat.
Qed.

Lemma drawStep_other (g : Game) (kept : list ref) (a : ref) :
  Bubble.isPopping (deref g a) = false ->
  drawStep (g, kept) a = (g, kept ++ [a]).
Proof. intros Ha. unfold drawStep. by rewrite Ha. Qed.

Lemma drawStep_fold (b : ref) (l : list ref) :
  forall (g : Game) (kept : list ref),
  Bubble.isPopping (deref g b) = false ->
  let r := fold_left drawStep l (g, kept) in
  deref r.1 b = deref g b /\
  gridBubbles r.1 = gridBubbles g /\ flyingBubble r.1 = flyingBubble g /\
  length (heap r.1) = length (heap g) /\
  frameRequests r.1 = frameRequests g /\ nextHandle r.1 = nextHandle g /\
  alerts r.1 = alerts g /\ score r.1 = score g /\
  (In b kept \/ In b l -> In b r.2).
Proof.
  induction l as [|a l IH]; intros g kept Hb; cbn zeta.
  - simpl. repeat split; try reflexivity. tauto.
  - cbn [fold_left].
    destruct (Bubble.isPopping (deref g a)) eqn:Ha.
    + assert (b <> a) as Hne by (intros ->; congruence).
      rewrite (drawStep_popping g kept a Ha).
      set (g1 := modify a _ g).
      set (kept1 := if (10 <=? S (Bubble.popFrame (deref g a)))%nat then kept else kept ++ [a]).
      assert (deref g1 b = deref g b) as Hd.
      { subst g1. rewrite deref_modify. apply Nat.eqb_neq in Hne. by rewrite Hne. }
      destruct (IH g1 kept1) as (H1 & H2 & H3 & H4 & H5 & H6 & H7 & H8 & H9); [by rewrite Hd|].
      rewrite H1, H2, H3, H4, H5, H6, H7, H8, Hd.
      repeat split; try reflexivity; [subst g1; apply length_heap_modify|].
      intros [Hk|[->|Hl]]; [|done|by apply H9; right].
      apply H9. left. subst kept1. destruct (_ <=? _)%nat; [|apply in_app_iff]; auto.
    + rewrite (drawStep_other g kept a Ha).
      destruct (IH g (kept ++ [a])) as (H1 & H2 & H3 & H4 & H5 & H6 & H7 & H8 & H9); [exact Hb|].
      repeat split; try assumption.
      intros [Hk|[->|Hl]]; apply H9; rewrite ?in_app_iff; simpl; auto.
Qed.

Lemma gameLoop_frame (b : ref) (g : Game) :
  (forall f, flyingBubble g = Some f -> (f < length (heap g))%nat) ->
  detached b g ->
  deref (gameLoop g) b = deref g b /\
  detached b (gameLoop g) /\
  (In b (bubbles g) -> In b (bubbles (gameLoop g))) /\
  (forall f, flyingBubble (gameLoop g) = Some f -> flyingBubble g = Some f) /\
  length (heap (gameLoop g)) = length (heap g).
Proof.
  intros Hfa Hdet.
  destruct (updateGame_frame b g Hfa Hdet) as (Hu1 & Hu2 & Hu3 & Hu4 & Hu5).
  unfold gameLoop, drawGame, requestAnimationFrame. cbv zeta.
  set (g1 := updateGame g) in *. rewrite drawBubbles_unfold.
  destruct Hu2 as (Hf1 & Hg1 & Hp1).
  destruct (drawStep_fold b (bubbles g1) g1 [] Hp1) as (H1 & H2 & H3 & H4 & _ & _ & _ & _ & H9).
  set (r := fold_left drawStep (bubbles g1) (g1, [])) in *.
  change (deref (set_animationFrameId ?a (set_nextHandle ?n (set_frameRequests ?q
            (set_bubbles ?l ?y)))) b) with (deref y b).
  cbn [flyingBubble gridBubbles bubbles heap set_animationFrameId set_nextHandle
       set_frameRequests set_bubbles].
  split; [by rewrite H1|]. split.
  { split; [cbn; by rewrite H3|]. split; [cbn; by rewrite H2|].
    change (Bubble.isPopping (deref r.1 b) = false). by rewrite H1. }
  split; [intros Hin; apply H9; right; by apply Hu3|].
  split; [rewrite H3; exact Hu4|]. by rewrite H4.
Qed.

(** * Runs of the game *)

Lemma handleAim_cases `{MathHost} (coords : float * float) (g : Game) :
  handleAim coords g = g \/ exists a, handleAim coords g = set_cannonAngle a g.
Proof.
  unfold handleAim. destruct (flyingBubble g); [by left|].
  destruct (0 <? _); [by left|right; eauto].
Qed.

Lemma applyEvent_frame `{MathHost} (rand : nat -> Draw) (b : ref) (g : Game) (e : Event) :
  flyingAllocated g -> (b < length (heap g))%nat -> detached b g ->
  deref (applyEvent rand g e) b = deref g b /\
  detached b (applyEvent rand g e) /\
  (In b (bubbles g) -> In b (bubbles (applyEvent rand g e))) /\
  flyingAllocated (applyEvent rand g e) /\
  (b < length (heap (applyEvent rand g e)))%nat.
Proof.
  intros Hfa Hb Hdet.
  assert (forall g', heap g' = heap g -> gridBubbles g' = gridBubbles g ->
            flyingBubble g' = flyingBubble g -> bubbles g' = bubbles g ->
            deref g' b = deref g b /\ detached b g' /\
            (In b (bubbles g) -> In b (bubbles g')) /\
            flyingAllocated g' /\ (b < length (heap g'))%nat) as Hsame.
  { intros g' Hh Hg Hf Hbs. unfold detached, flyingAllocated, deref in *.
    rewrite Hh, Hg, Hf, Hbs. split; [reflexivity|]. split; [exact Hdet|].
    split; [tauto|]. split; [exact Hfa|exact Hb]. }
  destruct e as [|x y|]; cbn [applyEvent].
  - unfold runFrame. destruct (frameRequests g) as [|h rest]; [by apply Hsame|].
    set (g1 := set_frameRequests rest g).
    destruct (gameLoop_frame b g1 Hfa Hdet) as (H1 & H2 & H3 & H4 & H5).
    split; [exact H1|]. split; [exact H2|]. split; [exact H3|]. split.
    + intros f Hf. rewrite H5. apply Hfa. by apply H4 in Hf.
    + by rewrite H5.
  - destruct (handleAim_cases (x, y) g) as [->|[a ->]]; by apply Hsame.
  - destruct (flyingBubble g) as [f|] eqn:Hf.
    + unfold handleShoot. rewrite Hf. apply Hsame; try reflexivity. by rewrite Hf.
    + rewrite (handleShoot_unfold rand g Hf). destruct Hdet as (Hd1 & Hd2 & Hd3).
      unfold detached, flyingAllocated, deref in *.
      cbn [heap gridBubbles flyingBubble bubbles]. rewrite length_app. cbn [length].
      assert ((heap g ++ [shotBubble rand g]) !!! b = heap g !!! b) as ->
        by (apply lookup_total_app_l; exact Hb).
      split; [reflexivity|]. split.
      { split; [intros [= Heq]; lia|]. split; [exact Hd2|exact Hd3]. }
      split; [intros Hin; apply in_app_iff; by left|].
      split; [intros f [= Heq]; lia|lia].
Qed.

(** C4 (what the code does instead).  A bubble that is allocated, is not
    the flying bubble, is not in the grid and is not popping -- the state in
    which [checkFloatingBubbles] leaves a bubble it let fall -- is the same
    object, at the same position, after every sequence of animation frames
    and pointer events, and it stays in [bubbles]: no tick advances it by its
    velocity and nothing removes it. *)
Theorem falling_bubbles_never_move `{MathHost} (rand : nat -> Draw)
    (events : list Event) (g : Game) (b : ref) :
  flyingAllocated g -> (b < length (heap g))%nat -> detached b g ->
  deref (play rand events g) b = deref g b /\
  (In b (bubbles g) -> In b (bubbles (play rand events g))).
Proof.
  revert g. induction events as [|e events IH]; intros g Hfa Hb Hdet; [by split|].
  unfold play. simpl fold_left. fold (play rand events (applyEvent rand g e)).
  destruct (applyEvent_frame rand b g e Hfa Hb Hdet) as (H1 & H2 & H3 & H4 & H5).
  destruct (IH _ H4 H5 H2) as [I1 I2].
  split; [by rewrite I1|]. intros Hin. by apply I2, H3.
Qed.

(** * Scheduling *)


(** * Sample states *)

Lemma NoDup_check (l : list ref) : bool_decide (NoDup l) = true -> List.NoDup l.
Proof. intros H. apply NoDup_ListNoDup. by apply bool_decide_eq_true in H. Qed.


Lemma initial_grid_monochrome_witness :
  gridBubbles initialGame = 0%nat :: seq 1 44 /\ In 9%nat (seq 1 44) /\
  Bubble.color (deref initialGame 9%nat) = Bubble.color (deref initialGame 0%nat).
Proof.
  assert (gridBubbles initialGame = 0%nat :: seq 1 44) as H1
    by (vm_compute; reflexivity).
  assert (In 9%nat (seq 1 44)) as H2 by (apply in_seq; lia).
  split; [exact H1|]. split; [exact H2|].
  exact (initial_grid_monochrome sampleRand game0 0%nat (seq 1 44) H1 9%nat H2).
Defined.




Lemma falling_bubbles_never_move_witness :
  flyingAllocated fallenGame /\ (9 < length (heap fallenGame))%nat /\
  detached 9%nat fallenGame /\
  Bubble.vy (deref fallenGame 9%nat) = 5 /\
  deref (play sampleRand shotAndFrames fallenGame) 9%nat = deref fallenGame 9%nat /\
  (In 9%nat (bubbles fallenGame) ->
   In 9%nat (bubbles (play sampleRand shotAndFrames fallenGame))).
Proof.
  assert (flyingAllocated fallenGame) as H1.
  { intros f Hf. vm_compute in Hf. discriminate. }
  assert (9 < length (heap fallenGame))%nat as H2
    by (apply Nat.ltb_lt; vm_compute; reflexivity).
  assert (detached 9%nat fallenGame) as H3.
  { split; [vm_compute; discriminate|].
    split; [apply memb_not_In; vm_compute; reflexivity|vm_compute; reflexivity]. }
  split; [exact H1|]. split; [exact H2|]. split; [exact H3|].
  split; [vm_compute; reflexivity|].
  exact (falling_bubbles_never_move sampleRand shotAndFrames fallenGame 9%nat H1 H2 H3).
Defined.


(** * The pop animation *)

Lemma modify_set_heap (r : ref) (f : Bubble.t -> Bubble.t) (g : Game) :
  modify r f g = set_heap (heap (modify r f g)) g.
Proof. reflexivity. Qed.

Lemma filter_ext_In' (f h : ref -> bool) (l : list ref) :
  (forall b, In b l -> f b = h b) -> List.filter f l = List.filter h l.
Proof.
  induction l as [|a l IH]; intros Hfh; [reflexivity|].
  cbn [List.filter]. rewrite (Hfh a) by (left; reflexivity).
  rewrite IH by (intros b Hb; apply Hfh; right; exact Hb). reflexivity.
Qed.

Lemma drawFold_spec (l : list ref) :
  forall (g : Game) (kept : list ref),
  List.NoDup l ->
  let r := fold_left drawStep l (g, kept) in
  r.2 = kept ++ List.filter (stays g) l /\
  (forall b, deref r.1 b =
     if memb b l && (b <? length (heap g))%nat then drawn (deref g b) else deref g b) /\
  length (heap r.1) = length (heap g) /\
  r.1 = set_heap (heap r.1) g.
Proof.
  induction l as [|a l IH]; intros g kept Hnd; cbn zeta.
  { cbn [fold_left List.filter fst snd memb existsb andb].
    rewrite app_nil_r. repeat split; try reflexivity. by destruct g. }
  apply List.NoDup_cons_iff in Hnd as [Ha Hnd].
  cbn [fold_left].
  destruct (Bubble.isPopping (deref g a)) eqn:Hp.
  - rewrite (drawStep_popping g kept a Hp).
    set (g1 := modify a _ g).
    specialize (IH g1 (if (10 <=? S (Bubble.popFrame (deref g a)))%nat
                       then kept else kept ++ [a]) Hnd).
    cbn zeta in IH. destruct IH as (H2 & Hd & Hl & Hs).
    assert (forall b, b <> a -> deref g1 b = deref g b) as Hother.
    { intros b Hb. unfold g1. rewrite deref_modify.
      destruct (Nat.eqb_spec b a); [contradiction|reflexivity]. }
    assert (length (heap g1) = length (heap g)) as Hlen
      by apply length_heap_modify.
    split; [|split; [|split]].
    + rewrite H2. cbn [List.filter]. unfold stays at 2. rewrite Hp. cbn [andb].
      rewrite (filter_ext_In' (stays g1) (stays g)).
      2:{ intros b Hb. unfold stays. rewrite Hother; [reflexivity|].
          intros ->. contradiction. }
      destruct (10 <=? S (Bubble.popFrame (deref g a)))%nat; cbn [negb].
      * reflexivity.
      * rewrite <- app_assoc. reflexivity.
    + intros b. rewrite Hd, Hlen. cbn [memb existsb].
      destruct (Nat.eqb_spec b a) as [->|Hne].
      * assert (memb a l = false) as -> by (by apply memb_not_In).
        cbn [orb andb]. unfold g1. rewrite deref_modify, Nat.eqb_refl. cbn [andb].
        destruct (a <? length (heap g))%nat; [|reflexivity].
        unfold drawn. rewrite Hp. reflexivity.
      * cbn [orb]. fold (memb b l). rewrite (Hother b Hne). reflexivity.
    + rewrite Hl. exact Hlen.
    + rewrite Hs at 1. reflexivity.
  - rewrite (drawStep_other g kept a Hp).
    specialize (IH g (kept ++ [a]) Hnd). cbn zeta in IH.
    destruct IH as (H2 & Hd & Hl & Hs).
    split; [|split; [|split]]; [| |exact Hl|exact Hs].
    + rewrite H2. cbn [List.filter]. unfold stays at 2. rewrite Hp. cbn [andb negb].
      rewrite <- app_assoc. reflexivity.
    + intros b. rewrite Hd. cbn [memb existsb].
      destruct (Nat.eqb_spec b a) as [->|Hne]; [|reflexivity].
      assert (memb a l = false) as -> by (by apply memb_not_In).
      cbn [orb andb]. unfold drawn. rewrite Hp.
      destruct (a <? length (heap g))%nat; reflexivity.
Qed.

Lemma drawBubbles_fields (g : Game) :
  List.NoDup (bubbles g) ->
  bubbles (drawBubbles g) = List.filter (stays g) (bubbles g) /\
  (forall b, deref (drawBubbles g) b =
     if memb b (bubbles g) && (b <? length (heap g))%nat
     then drawn (deref g b) else deref g b) /\
  length (heap (drawBubbles g)) = length (heap g) /\
  drawBubbles g =
    set_bubbles (List.filter (stays g) (bubbles g)) (set_heap (heap (drawBubbles g)) g).
Proof.
  intros Hnd. rewrite drawBubbles_unfold.
  destruct (drawFold_spec (bubbles g) g [] Hnd) as (H2 & Hd & Hl & Hs).
  cbn zeta in *. rewrite H2. cbn [app].
  split; [reflexivity|]. split; [exact Hd|]. split; [exact Hl|].
  rewrite Hs at 1. reflexivity.
Qed.

(** X1. One call of [drawBubbles] on a [bubbles] array without repeated
    entries: the array keeps, in order, every bubble that is not popping and
    every popping bubble whose frame counter is below 9; the frame counter
    of every popping entry advances by one; nothing else changes. *)
Theorem drawBubbles_spec (g : Game) :
  List.NoDup (bubbles g) ->
  let g' := drawBubbles g in
  bubbles g' =
    List.filter (fun b => negb (Bubble.isPopping (deref g b)) ||
                          (Bubble.popFrame (deref g b) <? 9)%nat) (bubbles g) /\
  (forall b, In b (bubbles g) -> (b < length (heap g))%nat ->
     Bubble.isPopping (deref g b) = true ->
     deref g' b = Bubble.set_popFrame (S (Bubble.popFrame (deref g b))) (deref g b)) /\
  (forall b, Bubble.isPopping (deref g b) = false -> deref g' b = deref g b) /\
  (forall b, ~ In b (bubbles g) -> deref g' b = deref g b) /\
  gridBubbles g' = gridBubbles g /\ flyingBubble g' = flyingBubble g /\
  score g' = score g /\ alerts g' = alerts g.
Proof.
  intros Hnd g'. destruct (drawBubbles_fields g Hnd) as (Hb & Hd & Hl & Hs).
  fold g' in Hb, Hd, Hl, Hs.
  split.
  { rewrite Hb. apply filter_ext_In'. intros b _. unfold stays.
    destruct (Bubble.isPopping (deref g b)); cbn [andb negb orb]; [|reflexivity].
    destruct (Nat.leb_spec 10 (S (Bubble.popFrame (deref g b))));
      destruct (Nat.ltb_spec (Bubble.popFrame (deref g b)) 9); cbn [negb]; try reflexivity; lia. }
  split.
  { intros b Hin Hlt Hp. rewrite Hd.
    assert (memb b (bubbles g) = true) as -> by (by apply memb_In).
    assert ((b <? length (heap g))%nat = true) as -> by (by apply Nat.ltb_lt).
    cbn [andb]. unfold drawn. rewrite Hp. reflexivity. }
  split.
  { intros b Hp. rewrite Hd. unfold drawn. rewrite Hp.
    destruct (memb b (bubbles g) && (b <? length (heap g))%nat); reflexivity. }
  split.
  { intros b Hin. rewrite Hd.
    assert (memb b (bubbles g) = false) as -> by (by apply memb_not_In).
    reflexivity. }
  rewrite Hs. repeat split; reflexivity.
Qed.

Lemma drawBubbles_spec_witness :
  List.NoDup (bubbles poppingGame) /\
  bubbles (drawBubbles poppingGame) = [0; 1]%nat /\
  Bubble.popFrame (deref (drawBubbles poppingGame) 0%nat) = 1%nat /\
  deref (drawBubbles poppingGame) 1%nat = deref poppingGame 1%nat.
Proof.
  assert (List.NoDup (bubbles poppingGame)) as H
    by (apply NoDup_check; vm_compute; reflexivity).
  split; [exact H|].
  destruct (drawBubbles_spec poppingGame H) as (Hb & Hp & Hq & _).
  split; [rewrite Hb; vm_compute; reflexivity|].
  split.
  - rewrite (Hp 0%nat); [reflexivity| | |].
    + apply memb_In; vm_compute; reflexivity.
    + apply Nat.ltb_lt; vm_compute; reflexivity.
    + vm_compute; reflexivity.
  - apply Hq. vm_compute. reflexivity.
Defined.

Lemma drawTimes_succ_r (n : nat) (g : Game) :
  drawTimes (S n) g = drawTimes n (drawBubbles g).
Proof. unfold drawTimes. apply Nat.iter_succ_r. Qed.

Lemma drawBubbles_NoDup (g : Game) :
  List.NoDup (bubbles g) -> List.NoDup (bubbles (drawBubbles g)).
Proof.
  intros Hnd. destruct (drawBubbles_fields g Hnd) as (Hb & _).
  rewrite Hb. by apply filter_NoDup.
Qed.

Lemma drawTimes_shrinks (n : nat) :
  forall g b, List.NoDup (bubbles g) ->
  In b (bubbles (drawTimes n g)) -> In b (bubbles g).
Proof.
  induction n as [|n IH]; intros g b Hnd Hin; [exact Hin|].
  rewrite drawTimes_succ_r in Hin.
  apply IH in Hin; [|by apply drawBubbles_NoDup].
  destruct (drawBubbles_fields g Hnd) as (Hb & _). rewrite Hb in Hin.
  apply filter_In in Hin. tauto.
Qed.

(** X2. The pop animation lasts ten draws.  A popping bubble of the
    [bubbles] array with frame counter [k] is still in the array after
    [n >= 1] further calls of [drawBubbles] exactly when [k + n < 10]: a
    bubble that has just been popped ([k = 0]) is drawn nine times and
    removed by the tenth call, and it never returns. *)
Theorem pop_animation_length (n : nat) :
  forall (g : Game) (b : ref),
  List.NoDup (bubbles g) -> In b (bubbles g) -> (b < length (heap g))%nat ->
  Bubble.isPopping (deref g b) = true ->
  (In b (bubbles (drawTimes (S n) g)) <->
   (Bubble.popFrame (deref g b) + S n < 10)%nat).
Proof.
  induction n as [|n IH]; intros g b Hnd Hin Hlt Hp.
  - change (drawTimes 1 g) with (drawBubbles g).
    destruct (drawBubbles_fields g Hnd) as (Hb & _). rewrite Hb.
    rewrite filter_In. unfold stays. rewrite Hp. cbn [andb].
    destruct (Nat.leb_spec 10 (S (Bubble.popFrame (deref g b)))); cbn [negb].
    + split; [intros [_ ?]; discriminate|lia].
    + split; [lia|intros _; split; [exact Hin|reflexivity]].
  - rewrite drawTimes_succ_r.
    pose proof (drawBubbles_NoDup g Hnd) as Hnd1.
    destruct (drawBubbles_fields g Hnd) as (Hb & Hd & Hl & _).
    assert (deref (drawBubbles g) b =
            Bubble.set_popFrame (S (Bubble.popFrame (deref g b))) (deref g b)) as Hdb.
    { rewrite Hd.
      assert (memb b (bubbles g) = true) as -> by (by apply memb_In).
      assert ((b <? length (heap g))%nat = true) as -> by (by apply Nat.ltb_lt).
      cbn [andb]. unfold drawn. rewrite Hp. reflexivity. }
    destruct (Nat.leb_spec 10 (S (Bubble.popFrame (deref g b)))) as [Hge|Hsmall].
    + split; [|lia]. intros Hin'.
      apply drawTimes_shrinks in Hin'; [|exact Hnd1].
      rewrite Hb in Hin'. apply filter_In in Hin' as [_ Hst].
      unfold stays in Hst. rewrite Hp in Hst. cbn [andb] in Hst.
      apply Nat.leb_le in Hge. rewrite Hge in Hst. discriminate.
    + assert (In b (bubbles (drawBubbles g))) as Hin1.
      { rewrite Hb. apply filter_In. split; [exact Hin|].
        unfold stays. rewrite Hp. cbn [andb].
        apply Nat.leb_gt in Hsmall. rewrite Hsmall. reflexivity. }
      rewrite (IH (drawBubbles g) b Hnd1 Hin1).
      * rewrite Hdb. destruct (deref g b); cbn. lia.
      * rewrite Hl. exact Hlt.
      * rewrite Hdb. destruct (deref g b); cbn in *. exact Hp.
Qed.

Lemma pop_animation_length_witness :
  List.NoDup (bubbles poppingGame) /\ In 0%nat (bubbles poppingGame) /\
  (0 < length (heap poppingGame))%nat /\
  Bubble.isPopping (deref poppingGame 0%nat) = true /\
  In 0%nat (bubbles (drawTimes 9 poppingGame)) /\
  ~ In 0%nat (bubbles (drawTimes 10 poppingGame)).
Proof.
  assert (List.NoDup (bubbles poppingGame)) as H1
    by (apply NoDup_check; vm_compute; reflexivity).
  assert (In 0%nat (bubbles poppingGame)) as H2
    by (apply memb_In; vm_compute; reflexivity).
  assert (0 < length (heap poppingGame))%nat as H3
    by (apply Nat.ltb_lt; vm_compute; reflexivity).
  assert (Bubble.isPopping (deref poppingGame 0%nat) = true) as H4
    by (vm_compute; reflexivity).
  split; [exact H1|]. split; [exact H2|]. split; [exact H3|]. split; [exact H4|].
  assert (Bubble.popFrame (deref poppingGame 0%nat) + 9 < 10)%nat as H5
    by (apply Nat.ltb_lt; vm_compute; reflexivity).
  assert (~ (Bubble.popFrame (deref poppingGame 0%nat) + 10 < 10)%nat) as H6
    by (apply Nat.ltb_nlt; vm_compute; reflexivity).
  split.
  - exact (proj2 (pop_animation_length 8 poppingGame 0%nat H1 H2 H3 H4) H5).
  - intros Hin.
    exact (H6 (proj1 (pop_animation_length 9 poppingGame 0%nat H1 H2 H3 H4) Hin)).
Defined.

(** * Score, alerts and scheduling over a run *)

Lemma popLoop_control (l : list ref) (g : Game) :
  control (popLoop l g) = control g.
Proof.
  revert g. induction l as [|r l IH]; intros g; [reflexivity|].
  rewrite popLoop_cons, IH. reflexivity.
Qed.

Lemma checkMatches_control (seed : ref) (g : Game) :
  checkMatches seed g = g \/
  exists k : nat, (3 <= k)%nat /\
    control (checkMatches seed g) = control (scored (Z.of_nat k * POP_SCORE) g).
Proof.
  unfold checkMatches.
  destruct (Nat.leb_spec 3 (length (getConnectedSameColorBubbles g seed))) as [Hk|Hk];
    [right|left; reflexivity].
  exists (length (getConnectedSameColorBubbles g seed)). split; [exact Hk|].
  rewrite popBubbles_popLoop, popLoop_control. reflexivity.
Qed.

Lemma checkFloatingBubbles_control (g : Game) :
  control (checkFloatingBubbles g) =
  control (scored (5 * Z.of_nat (length (floating g))) g).
Proof.
  pose proof (checkFloatingBubbles_fields g) as H. cbn zeta in H.
  destruct H as (_ & _ & Hs & Hsd & _ & _ & Hf & Ha & Hfr & Hid & Hn & Hc & Hr).
  rewrite Hs in Hsd.
  unfold control, scored, showScore.
  destruct (checkFloatingBubbles g); cbn in *. subst. reflexivity.
Qed.

Lemma filter_true {A : Type} (l : list A) : List.filter (fun _ => true) l = l.
Proof. induction l as [|x l IH]; [reflexivity|]. cbn [List.filter]. congruence. Qed.

Lemma checkGameOver_fields (g : Game) :
  flyingBubble g = None ->
  let g' := checkGameOver g in
  heap g' = heap g /\ gridBubbles g' = gridBubbles g /\ bubbles g' = bubbles g /\
  flyingBubble g' = None /\ score g' = score g /\ scoreDisplay g' = scoreDisplay g /\
  cannonAngle g' = cannonAngle g /\ randomCalls g' = randomCalls g /\
  animationFrameId g' = animationFrameId g /\ nextHandle g' = nextHandle g /\
  alerts g' = verdict g ++ alerts g /\
  exists keep, frameRequests g' = List.filter keep (frameRequests g).
Proof.
  intros Hf. unfold checkGameOver, verdict. rewrite Hf.
  destruct (existsb _ _).
  { destruct (animationFrameId g) as [h|] eqn:Hid; cbn.
    - repeat split; try reflexivity; try congruence. eauto.
    - repeat split; try reflexivity; try congruence.
      exists (fun _ => true). by rewrite filter_true. }
  destruct (gridBubbles g) eqn:Hg.
  - destruct (animationFrameId g) as [h|] eqn:Hid; cbn.
    + repeat split; try reflexivity; try congruence. eauto.
    + repeat split; try reflexivity; try congruence.
      exists (fun _ => true). by rewrite filter_true.
  - cbn. repeat split; try reflexivity; try congruence.
    exists (fun _ => true). by rewrite filter_true.
Qed.

Lemma verdict_ext (g g' : Game) :
  heap g' = heap g -> gridBubbles g' = gridBubbles g -> score g' = score g ->
  verdict g' = verdict g.
Proof. intros Hh Hg Hs. unfold verdict, deref. rewrite Hh, Hg, Hs. reflexivity. Qed.

Lemma control_fields (x y : Game) :
  control x = control y ->
  score x = score y /\ scoreDisplay x = scoreDisplay y /\
  cannonAngle x = cannonAngle y /\ flyingBubble x = flyingBubble y /\
  animationFrameId x = animationFrameId y /\ frameRequests x = frameRequests y /\
  nextHandle x = nextHandle y /\ alerts x = alerts y /\ randomCalls x = randomCalls y.
Proof.
  intros H. split; [exact (f_equal score H)|]. split; [exact (f_equal scoreDisplay H)|].
  split; [exact (f_equal cannonAngle H)|]. split; [exact (f_equal flyingBubble H)|].
  split; [exact (f_equal animationFrameId H)|].
  split; [exact (f_equal frameRequests H)|]. split; [exact (f_equal nextHandle H)|].
  split; [exact (f_equal alerts H)|exact (f_equal randomCalls H)].
Qed.

Lemma control_scored (n : Z) (x y : Game) :
  control x = control (scored n y) ->
  score x = (score y + n)%Z /\ scoreDisplay x = (score y + n)%Z :: scoreDisplay y /\
  cannonAngle x = cannonAngle y /\ flyingBubble x = flyingBubble y /\
  animationFrameId x = animationFrameId y /\ frameRequests x = frameRequests y /\
  nextHandle x = nextHandle y /\ alerts x = alerts y /\ randomCalls x = randomCalls y.
Proof. intros H. exact (control_fields x (scored n y) H). Qed.

Lemma settle_control (f : ref) (g : Game) :
  let g' := settle f g in
  (exists p q : nat, score g' = (score g + Z.of_nat p * POP_SCORE + 5 * Z.of_nat q)%Z) /\
  scoreShown g' /\ flyingBubble g' = None /\
  alerts g' = verdict g' ++ alerts g /\
  (exists keep, frameRequests g' = List.filter keep (frameRequests g)) /\
  animationFrameId g' = animationFrameId g /\ nextHandle g' = nextHandle g /\
  cannonAngle g' = cannonAngle g /\ randomCalls g' = randomCalls g.
Proof.
  unfold settle. cbn zeta.
  set (g1 := place f g).
  assert (score g1 = score g /\ scoreDisplay g1 = scoreDisplay g /\
          cannonAngle g1 = cannonAngle g /\
          animationFrameId g1 = animationFrameId g /\ frameRequests g1 = frameRequests g /\
          nextHandle g1 = nextHandle g /\ alerts g1 = alerts g /\
          randomCalls g1 = randomCalls g) as (A1 & A2 & A3 & A4 & A5 & A6 & A7 & A8)
    by (repeat split; reflexivity).
  clearbody g1.
  set (g2 := checkMatches f g1).
  assert (exists p : nat,
          score g2 = (score g1 + Z.of_nat p * POP_SCORE)%Z /\
          cannonAngle g2 = cannonAngle g1 /\
          animationFrameId g2 = animationFrameId g1 /\ frameRequests g2 = frameRequests g1 /\
          nextHandle g2 = nextHandle g1 /\ alerts g2 = alerts g1 /\
          randomCalls g2 = randomCalls g1) as (p & B1 & B3 & B4 & B5 & B6 & B7 & B8).
  { destruct (checkMatches_control f g1) as [Hsame|(k & _ & Hk)]; fold g2 in Hsame || fold g2 in Hk.
    - exists 0%nat. rewrite Hsame. repeat split; try reflexivity. lia.
    - exists k. apply control_scored in Hk. tauto. }
  clearbody g2.
  set (g3 := set_flyingBubble None g2).
  assert (score g3 = score g2 /\ cannonAngle g3 = cannonAngle g2 /\
          flyingBubble g3 = None /\
          animationFrameId g3 = animationFrameId g2 /\ frameRequests g3 = frameRequests g2 /\
          nextHandle g3 = nextHandle g2 /\ alerts g3 = alerts g2 /\
          randomCalls g3 = randomCalls g2) as (C1 & C3 & C4 & C5 & C6 & C7 & C8 & C9)
    by (repeat split; reflexivity).
  clearbody g3.
  pose proof (control_scored _ _ _ (checkFloatingBubbles_control g3))
    as (D1 & D2 & D3 & D4 & D5 & D6 & D7 & D8 & D9).
  set (q := length (floating g3)) in *. clearbody q.
  set (g4 := checkFloatingBubbles g3) in *. clearbody g4.
  assert (flyingBubble g4 = None) as Hfly by congruence.
  destruct (checkGameOver_fields g4 Hfly)
    as (E1 & E2 & E3 & E4 & E5 & E6 & E7 & E8 & E9 & E10 & E11 & keep & E12).
  split.
  { exists p, q. rewrite E5, D1, C1, B1, A1. reflexivity. }
  split; [unfold scoreShown; rewrite E6, E5, D2, D1; reflexivity|].
  split; [exact E4|].
  split.
  { rewrite E11, (verdict_ext g4 (checkGameOver g4) E1 E2 E5). congruence. }
  split; [exists keep; congruence|].
  repeat split; congruence.
Qed.

Lemma drawFold_shell (l : list ref) :
  forall (g : Game) (kept : list ref),
  (fold_left drawStep l (g, kept)).1 =
  set_heap (heap (fold_left drawStep l (g, kept)).1) g.
Proof.
  induction l as [|a l IH]; intros g kept; cbn [fold_left].
  { by destruct g. }
  destruct (Bubble.isPopping (deref g a)) eqn:Hp.
  - rewrite (drawStep_popping g kept a Hp).
    etransitivity; [apply IH|reflexivity].
  - rewrite (drawStep_other g kept a Hp). apply IH.
Qed.

Lemma drawBubbles_shell (g : Game) :
  drawBubbles g =
  set_bubbles (bubbles (drawBubbles g)) (set_heap (heap (drawBubbles g)) g).
Proof.
  rewrite drawBubbles_unfold.
  rewrite (drawFold_shell (bubbles g) g []) at 1. reflexivity.
Qed.

Lemma gameLoop_fields (g : Game) :
  let u := updateGame g in
  let g' := gameLoop g in
  score g' = score u /\ scoreDisplay g' = scoreDisplay u /\ alerts g' = alerts u /\
  flyingBubble g' = flyingBubble u /\ gridBubbles g' = gridBubbles u /\
  cannonAngle g' = cannonAngle u /\ randomCalls g' = randomCalls u /\
  frameRequests g' = frameRequests u ++ [nextHandle u] /\
  animationFrameId g' = Some (nextHandle u) /\ nextHandle g' = S (nextHandle u).
Proof.
  cbn zeta. unfold gameLoop, drawGame.
  set (u := updateGame g). clearbody u.
  rewrite (drawBubbles_shell u). cbn. by repeat split.
Qed.

Lemma updateGame_cases (g : Game) :
  (flyingBubble g = None /\ updateGame g = g) \/
  (exists f, flyingBubble g = Some f /\
     updateGame g = modify f wallCollision (modify f advance g)) \/
  (exists f g1, flyingBubble g = Some f /\ control g1 = control g /\
     updateGame g = settle f g1).
Proof.
  unfold updateGame. destruct (flyingBubble g) as [f|] eqn:Hf; [|by left].
  right. cbn zeta.
  destruct (_ || _).
  - right. exists f, (modify f wallCollision (modify f advance g)).
    split; [reflexivity|]. split; reflexivity.
  - left. exists f. split; reflexivity.
Qed.

(** X3. The alerts of a tick.  A call of [updateGame] that leaves
    [flyingBubble] as it was (no bubble is flying, or the flying bubble
    touches neither the ceiling nor the grid) shows no alert and changes
    neither the score nor the two arrays.  Any other call has settled the
    flying bubble: [flyingBubble] is null afterwards, and the tick shows the
    game-over alert if a bubble of the final grid reaches below the line
    above the cannon, else the win alert if the final grid is empty, else
    nothing; the alert carries the score after the points of this settle. *)
Theorem tick_alerts (g : Game) :
  let g' := updateGame g in
  (flyingBubble g' = flyingBubble g ->
   alerts g' = alerts g /\ score g' = score g /\
   gridBubbles g' = gridBubbles g /\ bubbles g' = bubbles g) /\
  (flyingBubble g' <> flyingBubble g ->
   flyingBubble g' = None /\ alerts g' = verdict g' ++ alerts g).
Proof.
  cbn zeta.
  destruct (updateGame_cases g) as [[Hf ->]|[(f & Hf & ->)|(f & g1 & Hf & Hc & ->)]].
  - split; [by repeat split|]. intros H. by destruct H.
  - split; [by repeat split|]. intros H. by destruct H.
  - destruct (settle_control f g1) as (_ & _ & Hn & Ha & _).
    cbn zeta in Hn, Ha. apply control_fields in Hc as (_ & _ & _ & _ & _ & _ & _ & Hal & _).
    split.
    + intros H. rewrite Hn, Hf in H. discriminate.
    + intros _. split; [exact Hn|]. rewrite Ha, Hal. reflexivity.
Qed.

Lemma handleShoot_cases `{MathHost} (rand : nat -> Draw) (g : Game) :
  handleShoot rand g = g \/
  flyingBubble g = None /\
  handleShoot rand g =
  mkGame (heap g ++ [shotBubble rand g]) (score g) (cannonAngle g)
    (bubbles g ++ [length (heap g)]) (gridBubbles g) (Some (length (heap g)))
    (animationFrameId g) (frameRequests g) (nextHandle g) (scoreDisplay g)
    (alerts g) (S (randomCalls g)).
Proof.
  destruct (flyingBubble g) as [f|] eqn:Hf.
  - left. unfold handleShoot. rewrite Hf. reflexivity.
  - right. split; [reflexivity|]. by apply handleShoot_unfold.
Qed.

Lemma play_invariant `{MathHost} (rand : nat -> Draw) (P : Game -> Prop) :
  (forall g e, P g -> P (applyEvent rand g e)) ->
  forall events g, P g -> P (play rand events g).
Proof.
  intros Hstep events. unfold play.
  induction events as [|e events IH]; intros g Hg; [exact Hg|].
  cbn [fold_left]. apply IH, Hstep, Hg.
Qed.

Lemma applyEvent_score `{MathHost} (rand : nat -> Draw) (g : Game) (e : Event) :
  let g' := applyEvent rand g e in
  (exists p q : nat, score g' = (score g + Z.of_nat p * POP_SCORE + 5 * Z.of_nat q)%Z) /\
  (score g' <> score g ->
   e = Frame /\ flyingBubble g <> None /\ flyingBubble g' = None).
Proof.
  cbn zeta. destruct e as [|x y|]; cbn [applyEvent].
  - unfold runFrame. destruct (frameRequests g) as [|h rest] eqn:Hfr.
    { split; [exists 0%nat, 0%nat; lia|]. intros Hne. by destruct Hne. }
    set (g0 := set_frameRequests rest g).
    destruct (gameLoop_fields g0) as (Hs & _ & _ & Hfl & _). cbn zeta in Hs, Hfl.
    rewrite Hs, Hfl.
    change (score g) with (score g0). change (flyingBubble g) with (flyingBubble g0).
    clearbody g0.
    destruct (updateGame_cases g0)
      as [[Hf ->]|[(f & Hf & ->)|(f & g1 & Hf & Hc & ->)]].
    + split; [exists 0%nat, 0%nat; lia|]. intros Hne. by destruct Hne.
    + split; [exists 0%nat, 0%nat; cbn; lia|]. intros Hne. by destruct Hne.
    + destruct (settle_control f g1) as ((p & q & Hsc) & _ & Hn & _).
      cbn zeta in Hn. apply control_fields in Hc as (Hs1 & _).
      split; [exists p, q; rewrite Hsc, Hs1; reflexivity|].
      intros _. split; [reflexivity|]. split; [congruence|exact Hn].
  - destruct (handleAim_cases (x, y) g) as [->|[a ->]];
      (split; [exists 0%nat, 0%nat; cbn; lia|intros Hne; by destruct Hne]).
  - destruct (handleShoot_cases rand g) as [->|[_ ->]];
      (split; [exists 0%nat, 0%nat; cbn; lia|intros Hne; by destruct Hne]).
Qed.

(** X4. The score over a run.  Every event changes the score by
    [10 p + 5 q] for some numbers [p] (popped) and [q] (fallen), and only a
    frame in which the flying bubble settles changes it at all; so over
    every sequence of frames and pointer events the score never
    decreases. *)
Theorem score_never_decreases `{MathHost} (rand : nat -> Draw) :
  (forall g e,
     let g' := applyEvent rand g e in
     (exists p q : nat,
        score g' = (score g + Z.of_nat p * POP_SCORE + 5 * Z.of_nat q)%Z) /\
     (score g' <> score g ->
      e = Frame /\ flyingBubble g <> None /\ flyingBubble g' = None)) /\
  (forall events g, (score g <= score (play rand events g))%Z).
Proof.
  split; [intros g e; apply applyEvent_score|].
  intros events g.
  apply (play_invariant rand (fun g' => (score g <= score g')%Z)); [|lia].
  intros g1 e Hle.
  destruct (applyEvent_score rand g1 e) as ((p & q & Hs) & _). cbn zeta in Hs.
  rewrite Hs. unfold POP_SCORE. lia.
Qed.

Lemma applyEvent_scoreShown `{MathHost} (rand : nat -> Draw) (g : Game) (e : Event) :
  scoreShown g -> scoreShown (applyEvent rand g e).
Proof.
  intros Hg. destruct e as [|x y|]; cbn [applyEvent].
  - unfold runFrame. destruct (frameRequests g) as [|h rest] eqn:Hfr; [exact Hg|].
    set (g0 := set_frameRequests rest g).
    assert (scoreShown g0) as Hg0 by exact Hg. clearbody g0.
    destruct (gameLoop_fields g0) as (Hs & Hd & _). cbn zeta in Hs, Hd.
    unfold scoreShown. rewrite Hs, Hd.
    destruct (updateGame_cases g0)
      as [[Hf ->]|[(f & Hf & ->)|(f & g1 & Hf & Hc & ->)]]; [exact Hg0|exact Hg0|].
    by destruct (settle_control f g1) as (_ & Hshown & _).
  - by destruct (handleAim_cases (x, y) g) as [->|[a ->]].
  - by destruct (handleShoot_cases rand g) as [->|[_ ->]].
Qed.

Lemma applyEvent_oneFramePending `{MathHost} (rand : nat -> Draw) (g : Game) (e : Event) :
  oneFramePending g -> oneFramePending (applyEvent rand g e).
Proof.
  intros (h & Hfr & Hid). destruct e as [|x y|]; cbn [applyEvent].
  - unfold runFrame. rewrite Hfr.
    set (g0 := set_frameRequests [] g).
    assert (frameRequests g0 = []) as Hg0 by reflexivity. clearbody g0.
    destruct (gameLoop_fields g0) as (_ & _ & _ & _ & _ & _ & _ & Hr & Ha & _).
    cbn zeta in Hr, Ha.
    assert (frameRequests (updateGame g0) = []) as Hu.
    { destruct (updateGame_cases g0)
        as [[Hf ->]|[(f & Hf & ->)|(f & g1 & Hf & Hc & ->)]]; [exact Hg0|exact Hg0|].
      destruct (settle_control f g1) as (_ & _ & _ & _ & (keep & Hk) & _).
      cbn zeta in Hk. rewrite Hk.
      apply control_fields in Hc as (_ & _ & _ & _ & _ & Hfr1 & _).
      rewrite Hfr1, Hg0. reflexivity. }
    exists (nextHandle (updateGame g0)). rewrite Hr, Ha, Hu. by split.
  - destruct (handleAim_cases (x, y) g) as [->|[a ->]]; exists h; by split.
  - destruct (handleShoot_cases rand g) as [->|[_ ->]]; exists h; by split.
Qed.

(** X5. The score element shows the current score.  After [initGame] and
    any sequence of frames and pointer events, the text last written to the
    score display is the value of [score]. *)
Theorem score_display_current `{MathHost} (rand : nat -> Draw) (events : list Event) :
  scoreShown (play rand events (initGame rand game0)).
Proof.
  apply play_invariant; [apply applyEvent_scoreShown|].
  unfold scoreShown. vm_compute. reflexivity.
Qed.

(** X6. The frame loop neither stops nor doubles.  After [initGame] and
    any sequence of frames and pointer events, exactly one animation-frame
    request is pending, and [animationFrameId] holds its handle; this
    includes the states after a game-over or win alert. *)
Theorem one_frame_pending `{MathHost} (rand : nat -> Draw) (events : list Event) :
  oneFramePending (play rand events (initGame rand game0)).
Proof.
  apply play_invariant; [apply applyEvent_oneFramePending|].
  exists 1%nat. split; vm_compute; reflexivity.
Qed.

(** * Well-formed states *)

Lemma gridOK_ext (g g' : Game) :
  heap g' = heap g -> gridBubbles g' = gridBubbles g -> bubbles g' = bubbles g ->
  gridOK g -> gridOK g'.
Proof. unfold gridOK, deref. intros -> -> ->. tauto. Qed.

Lemma wellFormed_ext (g g' : Game) :
  heap g' = heap g -> gridBubbles g' = gridBubbles g -> bubbles g' = bubbles g ->
  flyingBubble g' = flyingBubble g -> wellFormed g -> wellFormed g'.
Proof. unfold wellFormed, gridOK, flyingOK, deref. intros -> -> -> ->. tauto. Qed.

Lemma wellFormed_modify (r : ref) (fn : Bubble.t -> Bubble.t) (g : Game) :
  (forall b, Bubble.isGrid (fn b) = Bubble.isGrid b /\
             Bubble.isPopping (fn b) = Bubble.isPopping b) ->
  wellFormed g -> wellFormed (modify r fn g).
Proof.
  intros Hfn ((H1 & H2 & H3 & H4) & H5).
  assert (forall b, Bubble.isGrid (deref (modify r fn g) b) = Bubble.isGrid (deref g b) /\
                    Bubble.isPopping (deref (modify r fn g) b) = Bubble.isPopping (deref g b))
    as Hd.
  { intros b. rewrite deref_modify. destruct (_ && _); [apply Hfn|by split]. }
  split; [split; [exact H1|split; [exact H2|split]]|].
  - intros b Hb. rewrite length_heap_modify. by apply H3.
  - intros b Hb. destruct (Hd b) as [-> ->]. by apply H4.
  - intros f Hf. destruct (Hd f) as [-> ->]. by apply H5.
Qed.

Lemma advance_flags (b : Bubble.t) :
  Bubble.isGrid (advance b) = Bubble.isGrid b /\
  Bubble.isPopping (advance b) = Bubble.isPopping b.
Proof. by destruct b. Qed.

Lemma wallCollision_flags (b : Bubble.t) :
  Bubble.isGrid (wallCollision b) = Bubble.isGrid b /\
  Bubble.isPopping (wallCollision b) = Bubble.isPopping b.
Proof.
  unfold wallCollision. destruct (hitsWall b); [|by split].
  cbn zeta.
  destruct (Bubble.x (Bubble.set_vx _ b) - _ <? 0);
    match goal with |- context [if ?c then _ else _] => destruct c end;
    by destruct b.
Qed.

Lemma gridOK_place (f : ref) (g : Game) :
  wellFormed g -> flyingBubble g = Some f -> gridOK (place f g).
Proof.
  intros ((H1 & H2 & H3 & H4) & H5) Hf.
  destruct (H5 f Hf) as (Hfb & Hfg & _ & Hfp).
  destruct (place_deref f g (H3 f Hfb)) as (Hg & Hdf & Hother).
  assert (bubbles (place f g) = bubbles g) as Hb by reflexivity.
  assert (length (heap (place f g)) = length (heap g)) as Hl.
  { unfold place, snapBubbleToGrid. cbn zeta.
    change (heap (set_gridBubbles ?l ?x)) with (heap x).
    by rewrite !length_heap_modify. }
  split; [|split; [|split]].
  - rewrite Hg. apply NoDup_ListNoDup, NoDup_app. split; [by apply NoDup_ListNoDup|].
    split; [|apply NoDup_singleton].
    intros x Hx Hx'. apply list_elem_of_singleton in Hx'. subst x.
    apply Hfg. by apply list_elem_of_In.
  - rewrite Hb. exact H2.
  - intros b Hin. rewrite Hl. rewrite Hb in Hin. by apply H3.
  - intros b Hin. rewrite Hg in Hin. apply in_app_iff in Hin as [Hin|[<-|[]]].
    + rewrite Hother by (intros ->; contradiction). rewrite Hb. by apply H4.
    + split; [rewrite Hb; exact Hfb|]. rewrite Hdf.
      destruct (deref g f); cbn in *. by split.
Qed.

Lemma gridOK_checkMatches (seed : ref) (g : Game) :
  gridOK g -> gridOK (checkMatches seed g).
Proof.
  intros Hg. unfold checkMatches.
  destruct (3 <=? _)%nat; [|exact Hg].
  rewrite popBubbles_popLoop.
  set (l := getConnectedSameColorBubbles g seed).
  set (g1 := showScore _).
  assert (gridOK g1) as (H1 & H2 & H3 & H4) by exact Hg.
  clearbody g1 l.
  destruct (popLoop_spec l g1 H1) as (_ & _ & Hb & _ & Hl & Hgr & Hd).
  cbn zeta in *.
  split; [|split; [|split]].
  - rewrite Hgr. by apply filter_NoDup.
  - by rewrite Hb.
  - intros b Hin. rewrite Hb in Hin. rewrite Hl. by apply H3.
  - intros b Hin. rewrite Hgr in Hin. apply filter_In in Hin as [Hin Hm].
    rewrite Hb, Hd. apply negb_true_iff in Hm. rewrite Hm. cbn [andb]. by apply H4.
Qed.

Lemma fold_removeFirst_filter (fl : list ref) :
  forall bs, List.NoDup bs ->
  fold_left (fun l b => removeFirst b l) fl bs =
  List.filter (fun b => negb (memb b fl)) bs.
Proof.
  induction fl as [|a fl IH]; intros bs Hnd; cbn [fold_left].
  { cbn. clear. induction bs as [|x l IH]; [reflexivity|].
    cbn [List.filter negb]. congruence. }
  rewrite IH by (rewrite removeFirst_filter by exact Hnd; by apply filter_NoDup).
  rewrite removeFirst_filter by exact Hnd.
  apply filter_memb_cons.
Qed.

Lemma floating_NoDup (g : Game) : List.NoDup (gridBubbles g) -> List.NoDup (floating g).
Proof.
  intros Hnd. unfold floating. apply List.NoDup_rev. by apply filter_NoDup.
Qed.

Lemma gridOK_checkFloatingBubbles (g : Game) :
  gridOK g -> gridOK (checkFloatingBubbles g).
Proof.
  intros (H1 & H2 & H3 & H4).
  pose proof (checkFloatingBubbles_fields g) as H. cbn zeta in H.
  destruct H as (Hgr & Hb & _ & _ & Hd & Hl & _).
  assert (forall b, In b (gridBubbles (checkFloatingBubbles g)) ->
                    In b (gridBubbles g) /\ ~ In b (floating g)) as Hkept.
  { intros b Hin. rewrite Hgr in Hin. apply filter_In in Hin as [Hin Hv].
    split; [exact Hin|]. unfold floating. rewrite <- in_rev, filter_In.
    intros [_ Hn]. rewrite Hv in Hn. discriminate. }
  split; [|split; [|split]].
  - rewrite Hgr. by apply filter_NoDup.
  - rewrite Hb, fold_removeFirst_filter by exact H2.
    apply NoDup_ListNoDup, NoDup_app.
    split; [apply NoDup_ListNoDup; by apply filter_NoDup|].
    split; [|apply NoDup_ListNoDup; by apply floating_NoDup].
    intros x Hx Hx'. apply list_elem_of_In, filter_In in Hx as [_ Hm].
    apply negb_true_iff, memb_not_In in Hm. apply Hm. by apply list_elem_of_In.
  - intros b Hin. rewrite Hl. rewrite Hb, fold_removeFirst_filter in Hin by exact H2.
    apply in_app_iff in Hin as [Hin|Hin].
    + apply filter_In in Hin as [Hin _]. by apply H3.
    + apply H3, H4. by apply floating_grid.
  - intros b Hin. destruct (Hkept b Hin) as [Hing Hnf].
    rewrite Hd. assert (memb b (floating g) = false) as -> by (by apply memb_not_In).
    cbn [andb]. split; [|by apply H4].
    rewrite Hb. apply in_app_iff. left. apply fold_removeFirst_In; [exact Hnf|].
    by apply H4.
Qed.

Lemma wellFormed_settle (f : ref) (g : Game) :
  wellFormed g -> flyingBubble g = Some f -> wellFormed (settle f g).
Proof.
  intros Hwf Hf. unfold settle. cbn zeta.
  pose proof (gridOK_place f g Hwf Hf) as H1.
  apply (gridOK_checkMatches f) in H1.
  assert (gridOK (set_flyingBubble None (checkMatches f (place f g)))) as H2 by exact H1.
  apply gridOK_checkFloatingBubbles in H2.
  set (g4 := checkFloatingBubbles _) in *.
  assert (flyingBubble g4 = None) as Hn.
  { pose proof (checkFloatingBubbles_fields
                  (set_flyingBubble None (checkMatches f (place f g)))) as H.
    cbn zeta in H. fold g4 in H. tauto. }
  clearbody g4.
  destruct (checkGameOver_fields g4 Hn) as (E1 & E2 & E3 & E4 & _).
  split; [by apply (gridOK_ext g4)|].
  intros x Hx. rewrite E4 in Hx. discriminate.
Qed.

Lemma wellFormed_updateGame (g : Game) : wellFormed g -> wellFormed (updateGame g).
Proof.
  intros Hwf. unfold updateGame.
  destruct (flyingBubble g) as [f|] eqn:Hf; [|exact Hwf]. cbn zeta.
  assert (wellFormed (modify f wallCollision (modify f advance g))) as Hwf1.
  { apply wellFormed_modify; [apply wallCollision_flags|].
    apply wellFormed_modify; [apply advance_flags|exact Hwf]. }
  destruct (_ || _); [|exact Hwf1].
  by apply wellFormed_settle.
Qed.

Lemma drawn_flags (b : Bubble.t) :
  Bubble.isGrid (drawn b) = Bubble.isGrid b /\
  Bubble.isPopping (drawn b) = Bubble.isPopping b.
Proof. unfold drawn. destruct (Bubble.isPopping b) eqn:Hp; by destruct b. Qed.

Lemma wellFormed_drawBubbles (g : Game) : wellFormed g -> wellFormed (drawBubbles g).
Proof.
  intros ((H1 & H2 & H3 & H4) & H5).
  destruct (drawBubbles_fields g H2) as (Hb & Hd & Hl & Hs).
  assert (gridBubbles (drawBubbles g) = gridBubbles g) as Hgr by (by rewrite Hs).
  assert (flyingBubble (drawBubbles g) = flyingBubble g) as Hfl by (by rewrite Hs).
  assert (forall b, Bubble.isGrid (deref (drawBubbles g) b) = Bubble.isGrid (deref g b) /\
                    Bubble.isPopping (deref (drawBubbles g) b) = Bubble.isPopping (deref g b))
    as Hflags.
  { intros b. rewrite Hd. destruct (_ && _); [apply drawn_flags|by split]. }
  assert (forall b, In b (bubbles g) -> Bubble.isPopping (deref g b) = false ->
                    In b (bubbles (drawBubbles g))) as Hkeep.
  { intros b Hin Hp. rewrite Hb. apply filter_In. split; [exact Hin|].
    unfold stays. rewrite Hp. reflexivity. }
  split; [split; [|split; [|split]]|].
  - by rewrite Hgr.
  - rewrite Hb. by apply filter_NoDup.
  - intros b Hin. rewrite Hl. rewrite Hb in Hin. apply filter_In in Hin as [Hin _].
    by apply H3.
  - intros b Hin. rewrite Hgr in Hin. destruct (H4 b Hin) as (Hinb & Hg & Hp).
    destruct (Hflags b) as [-> ->]. split; [by apply Hkeep|by split].
  - intros f Hf. rewrite Hfl in Hf. destruct (H5 f Hf) as (Hinb & Hng & Hg & Hp).
    destruct (Hflags f) as [-> ->]. rewrite Hgr.
    split; [by apply Hkeep|]. by repeat split.
Qed.

Lemma wellFormed_gameLoop (g : Game) : wellFormed g -> wellFormed (gameLoop g).
Proof.
  intros Hwf. apply wellFormed_updateGame, wellFormed_drawBubbles in Hwf.
  revert Hwf. by apply wellFormed_ext.
Qed.

Lemma wellFormed_handleShoot `{MathHost} (rand : nat -> Draw) (g : Game) :
  wellFormed g -> wellFormed (handleShoot rand g).
Proof.
  intros Hwf. destruct (handleShoot_cases rand g) as [->|[Hnone ->]]; [exact Hwf|].
  destruct Hwf as ((H1 & H2 & H3 & H4) & H5).
  assert (forall b, (b < length (heap g))%nat ->
            deref (mkGame (heap g ++ [shotBubble rand g]) (score g) (cannonAngle g)
                     (bubbles g ++ [length (heap g)]) (gridBubbles g)
                     (Some (length (heap g))) (animationFrameId g) (frameRequests g)
                     (nextHandle g) (scoreDisplay g) (alerts g) (S (randomCalls g))) b
            = deref g b) as Hold.
  { intros b Hb. unfold deref. cbn [heap]. by apply lookup_total_app_l. }
  assert (~ In (length (heap g)) (bubbles g)) as Hfresh.
  { intros Hin. apply H3 in Hin. lia. }
  split; [split; [|split; [|split]]|]; cbn [gridBubbles bubbles heap flyingBubble].
  - exact H1.
  - apply NoDup_ListNoDup, NoDup_app. split; [by apply NoDup_ListNoDup|].
    split; [|apply NoDup_singleton].
    intros x Hx Hx'. apply list_elem_of_singleton in Hx'. subst x.
    apply Hfresh. by apply list_elem_of_In.
  - intros b Hin. rewrite length_app. cbn [length].
    apply in_app_iff in Hin as [Hin|[<-|[]]]; [apply H3 in Hin|]; lia.
  - intros b Hin. destruct (H4 b Hin) as (Hinb & Hg & Hp).
    rewrite Hold by (by apply H3).
    split; [apply in_app_iff; by left|by split].
  - intros f [= <-]. split; [apply in_app_iff; right; by left|].
    split; [intros Hin; apply Hfresh; by apply H4|].
    unfold deref. cbn [heap]. rewrite lookup_total_app_r by lia.
    rewrite Nat.sub_diag. by split.
Qed.

Lemma wellFormed_applyEvent `{MathHost} (rand : nat -> Draw) (g : Game) (e : Event) :
  wellFormed g -> wellFormed (applyEvent rand g e).
Proof.
  intros Hwf. destruct e as [|x y|]; cbn [applyEvent].
  - unfold runFrame. destruct (frameRequests g); [exact Hwf|].
    by apply wellFormed_gameLoop.
  - by destruct (handleAim_cases (x, y) g) as [->|[a ->]].
  - by apply wellFormed_handleShoot.
Qed.

Lemma wellFormed_initGame (rand : nat -> Draw) : wellFormed (initGame rand game0).
Proof.
  assert (gridBubbles (initGame rand game0) = seq 0 45) as Hg
    by (vm_compute; reflexivity).
  assert (bubbles (initGame rand game0) = seq 0 45) as Hb
    by (vm_compute; reflexivity).
  assert (length (heap (initGame rand game0)) = 45%nat) as Hl
    by (vm_compute; reflexivity).
  assert (forallb (fun b => Bubble.isGrid (deref (initGame rand game0) b) &&
                            negb (Bubble.isPopping (deref (initGame rand game0) b)))
            (seq 0 45) = true) as Hflags by (vm_compute; reflexivity).
  split; [split; [|split; [|split]]|].
  - rewrite Hg. apply seq_NoDup.
  - rewrite Hb. apply seq_NoDup.
  - intros b Hin. rewrite Hb in Hin. apply in_seq in Hin. lia.
  - intros b Hin. rewrite Hg in Hin. rewrite Hb. split; [exact Hin|].
    rewrite forallb_forall in Hflags. apply Hflags in Hin.
    apply andb_true_iff in Hin as [H1 H2]. apply negb_true_iff in H2. by split.
  - intros f Hf. vm_compute in Hf. discriminate.
Qed.

(** X7. Every state of a run is well formed.  After [initGame] and any
    sequence of frames and pointer events: [gridBubbles] and [bubbles]
    repeat no entry and hold allocated objects; every grid bubble is in
    [bubbles], has [isGrid] set and is not popping; and the flying bubble,
    if there is one, is in [bubbles], is not in the grid, has [isGrid]
    unset and is not popping. *)
Theorem reachable_wellFormed `{MathHost} (rand : nat -> Draw) (events : list Event) :
  let g := play rand events (initGame rand game0) in
  wellFormed g /\ gridAllocated g /\ flyingAllocated g.
Proof.
  cbn zeta.
  assert (wellFormed (play rand events (initGame rand game0))) as Hwf.
  { apply play_invariant; [apply wellFormed_applyEvent|apply wellFormed_initGame]. }
  split; [exact Hwf|].
  destruct Hwf as ((H1 & H2 & H3 & H4) & H5).
  split.
  - intros b Hb. by apply H3, H4.
  - intros f Hf. by apply H3, H5.
Qed.

(** * Grids of snapped bubbles *)

Lemma canvasCentres_apart :
  forallb (fun p => forallb (fun q =>
      (Leibniz.eqb p.1 q.1 && Leibniz.eqb p.2 q.2) || negb (touching p q))
    canvasCentres) canvasCentres = true.
Proof. vm_compute. reflexivity. Qed.

Lemma atCanvasCell_spec (b : Bubble.t) :
  atCanvasCell b = true ->
  Bubble.radius b = BUBBLE_RADIUS /\ In (Bubble.x b, Bubble.y b) canvasCentres.
Proof.
  unfold atCanvasCell. intros H. apply andb_true_iff in H as [Hr Hp].
  apply Leibniz.eqb_spec in Hr. split; [exact Hr|].
  apply existsb_exists in Hp as (p & Hin & Hp).
  apply andb_true_iff in Hp as [Hx Hy].
  apply Leibniz.eqb_spec in Hx, Hy. rewrite Hx, Hy. by destruct p.
Qed.

Lemma snappedGrid_isolated (g : Game) (a b : ref) :
  snappedGrid g = true -> In a (gridBubbles g) -> In b (gridBubbles g) -> a <> b ->
  isCollidingWith (deref g a) (deref g b) = false.
Proof.
  intros Hs Ha Hb Hne. unfold snappedGrid in Hs. rewrite forallb_forall in Hs.
  pose proof (Hs a Ha) as Hsa. apply andb_true_iff in Hsa as [Hca Hpa].
  pose proof (Hs b Hb) as Hsb. apply andb_true_iff in Hsb as [Hcb _].
  rewrite forallb_forall in Hpa. specialize (Hpa b Hb).
  apply Nat.eqb_neq in Hne. rewrite Hne in Hpa. cbn [orb] in Hpa.
  apply negb_true_iff in Hpa.
  apply atCanvasCell_spec in Hca as [Hra Hina], Hcb as [Hrb Hinb].
  pose proof canvasCentres_apart as Hall. rewrite forallb_forall in Hall.
  specialize (Hall _ Hina). rewrite forallb_forall in Hall.
  specialize (Hall _ Hinb). cbn [fst snd] in Hall.
  unfold samePosition in Hpa. rewrite Hpa in Hall. cbn [orb] in Hall.
  apply negb_true_iff in Hall.
  unfold touching, isCollidingWith, dist, Bubble.new in Hall. cbn in Hall.
  unfold isCollidingWith, dist. rewrite Hra, Hrb. exact Hall.
Qed.

Lemma snappedGrid_neighbors (g : Game) (a : ref) :
  snappedGrid g = true -> In a (gridBubbles g) -> getNeighbors g a = [].
Proof.
  intros Hs Ha.
  destruct (getNeighbors g a) as [|b l] eqn:Hn; [reflexivity|].
  assert (In b (getNeighbors g a)) as Hb by (rewrite Hn; by left).
  apply getNeighbors_iff in Hb as (Hb & Hne & Hcol).
  rewrite snappedGrid_isolated in Hcol by auto. discriminate.
Qed.

Lemma isolated_component (g : Game) (seed : ref) :
  getNeighbors g seed = [] -> getConnectedSameColorBubbles g seed = [seed].
Proof.
  intros Hn. unfold getConnectedSameColorBubbles, sameColorFlood.
  cbn [floodLoop fhead fq length Nat.ltb Nat.leb].
  unfold floodStep. cbn [fhead fq nth]. rewrite Hn. cbn [fold_left].
  destruct (length (gridBubbles g)); reflexivity.
Qed.

Lemma isolated_supported (g : Game) (b : ref) :
  (forall a, In a (gridBubbles g) -> getNeighbors g a = []) ->
  In b (gridBubbles g) ->
  (supported g b <-> (Bubble.y (deref g b) <=? BUBBLE_RADIUS * 2) = true).
Proof.
  intros Hiso Hb. split.
  - intros (s & Hs & Hy & Hrtc).
    destruct Hrtc as [|s c d Hstep _]; [exact Hy|].
    rewrite (Hiso s Hs) in Hstep. destruct Hstep.
  - intros Hy. exists b. split; [exact Hb|]. split; [exact Hy|]. constructor.
Qed.

(** X8. A grid of snapped bubbles never pops.  When every grid bubble has
    radius 20 and lies at the centre of a hexagonal cell of the canvas, no
    two of them at the same centre, then no grid bubble has a neighbour (the
    centres are 40 apart and [isCollidingWith] asks for less than 38): the
    match pass from any grid bubble changes nothing, whatever the colours,
    and the gravity pass keeps exactly the bubbles with [y <= 40] and lets
    every other grid bubble fall, for 5 points each. *)
Theorem snapped_grid_never_pops (g : Game) :
  snappedGrid g = true ->
  (forall a b, In a (gridBubbles g) -> In b (gridBubbles g) -> a <> b ->
     isCollidingWith (deref g a) (deref g b) = false) /\
  (forall a, In a (gridBubbles g) -> getNeighbors g a = []) /\
  (forall seed, In seed (gridBubbles g) ->
     getConnectedSameColorBubbles g seed = [seed] /\ checkMatches seed g = g) /\
  gridBubbles (checkFloatingBubbles g) = nearCeiling g /\
  score (checkFloatingBubbles g) =
    (score g + 5 * Z.of_nat (length (gridBubbles g) - length (nearCeiling g)))%Z.
Proof.
  intros Hs.
  assert (forall a, In a (gridBubbles g) -> getNeighbors g a = []) as Hiso
    by (intros a Ha; by apply snappedGrid_neighbors).
  split; [intros a b; by apply snappedGrid_isolated|]. split; [exact Hiso|].
  split.
  { intros seed Hseed. pose proof (isolated_component g seed (Hiso seed Hseed)) as Hc.
    split; [exact Hc|]. unfold checkMatches. rewrite Hc. reflexivity. }
  pose proof (checkFloatingBubbles_fields g) as H. cbn zeta in H.
  destruct H as (Hgr & _ & Hsc & _).
  assert (forall b, In b (gridBubbles g) ->
            bool_decide (b ∈ fvisited (ceilingFlood g)) =
            (Bubble.y (deref g b) <=? BUBBLE_RADIUS * 2)) as Hsame.
  { intros b Hb.
    destruct (Bubble.y (deref g b) <=? BUBBLE_RADIUS * 2) eqn:Hy.
    - apply bool_decide_eq_true, connectedToCeiling_iff.
      by apply isolated_supported.
    - apply bool_decide_eq_false. intros Hv.
      apply connectedToCeiling_iff, isolated_supported in Hv; [|exact Hiso|exact Hb].
      congruence. }
  split.
  { rewrite Hgr. unfold nearCeiling. by apply filter_ext_In'. }
  rewrite Hsc. f_equal. f_equal. f_equal. unfold floating, nearCeiling.
  rewrite length_rev.
  rewrite (filter_ext_In' _ (fun b => negb (Bubble.y (deref g b) <=? BUBBLE_RADIUS * 2)))
    by (intros b Hb; by rewrite Hsame).
  clear. induction (gridBubbles g) as [|x l IH]; [reflexivity|].
  cbn [List.filter length].
  pose proof (List.filter_length_le
                (fun bubble => Bubble.y (deref g bubble) <=? BUBBLE_RADIUS * 2) l) as Hle.
  destruct (Bubble.y (deref g x) <=? BUBBLE_RADIUS * 2); cbn [negb length]; lia.
Qed.

Lemma snapped_grid_never_pops_witness :
  snappedGrid initialGame = true /\
  getNeighbors initialGame 22%nat = [] /\
  checkMatches 22%nat initialGame = initialGame /\
  length (gridBubbles (checkFloatingBubbles initialGame)) = 9%nat /\
  score (checkFloatingBubbles initialGame) = 180%Z.
Proof.
  assert (snappedGrid initialGame = true) as Hs by (vm_compute; reflexivity).
  assert (In 22%nat (gridBubbles initialGame)) as Hin
    by (apply memb_In; vm_compute; reflexivity).
  destruct (snapped_grid_never_pops initialGame Hs) as (_ & Hn & Hm & Hg & Hsc).
  split; [exact Hs|]. split; [by apply Hn|]. split; [by apply Hm|].
  split; [rewrite Hg|rewrite Hsc]; vm_compute; reflexivity.
Defined.

(** * One bubble in flight *)

(** X9. At most one bubble is in flight.  While [flyingBubble] is set,
    pointer moves and presses change nothing at all: no object is created,
    no random value is consumed and the cannon keeps its angle; in
    particular a second press right after a shot is ignored. *)
Theorem pointer_events_ignored_in_flight `{MathHost} (rand : nat -> Draw)
    (events : list Event) (g : Game) :
  flyingBubble g <> None -> Forall (fun e => e <> Frame) events ->
  play rand events g = g /\
  handleShoot rand (handleShoot rand g) = handleShoot rand g.
Proof.
  intros Hf Hev. split.
  - unfold play. induction Hev as [|e events He _ IH]; [reflexivity|].
    cbn [fold_left].
    assert (applyEvent rand g e = g) as ->; [|exact IH].
    destruct e as [|x y|]; [by destruct He| |]; cbn [applyEvent].
    + unfold handleAim. by destruct (flyingBubble g).
    + unfold handleShoot. by destruct (flyingBubble g).
  - destruct (handleShoot_cases rand g) as [Hid|[_ Hshot]]; [by rewrite !Hid|].
    rewrite Hshot. reflexivity.
Qed.

Lemma pointer_events_ignored_in_flight_witness :
  flyingBubble inFlightGame <> None /\
  play sampleRand [PointerDown; PointerMove 10 10; PointerDown] inFlightGame
    = inFlightGame.
Proof.
  assert (flyingBubble inFlightGame <> None) as H1 by (vm_compute; discriminate).
  assert (Forall (fun e => e <> Frame) [PointerDown; PointerMove 10 10; PointerDown])
    as H2 by (repeat constructor; discriminate).
  split; [exact H1|].
  exact (proj1 (pointer_events_ignored_in_flight sampleRand
                  [PointerDown; PointerMove 10 10; PointerDown] inFlightGame H1 H2)).
Defined.

(** * Frames *)

Lemma drawFold_idle (l : list ref) :
  forall (g : Game) (kept : list ref),
  (forall b, In b l -> Bubble.isPopping (deref g b) = false) ->
  fold_left drawStep l (g, kept) = (g, kept ++ l).
Proof.
  induction l as [|a l IH]; intros g kept Hp; cbn [fold_left].
  { by rewrite app_nil_r. }
  rewrite drawStep_other by (apply Hp; by left).
  rewrite IH by (intros b Hb; apply Hp; by right).
  by rewrite <- app_assoc.
Qed.

(** X10. An idle frame.  When no bubble is flying and no entry of
    [bubbles] is popping, [gameLoop] changes nothing in the game: it only
    registers the next animation frame and stores its handle. *)
Theorem idle_frame (g : Game) :
  flyingBubble g = None ->
  (forall b, In b (bubbles g) -> Bubble.isPopping (deref g b) = false) ->
  gameLoop g =
  set_animationFrameId (Some (nextHandle g))
    (set_nextHandle (S (nextHandle g))
       (set_frameRequests (frameRequests g ++ [nextHandle g]) g)).
Proof.
  intros Hf Hp. unfold gameLoop, drawGame, updateGame. rewrite Hf.
  rewrite drawBubbles_unfold, (drawFold_idle (bubbles g) g [] Hp).
  by destruct g.
Qed.

Lemma idle_frame_witness :
  flyingBubble initialGame = None /\
  gameLoop initialGame =
  set_animationFrameId (Some 2%nat)
    (set_nextHandle 3%nat (set_frameRequests [1; 2]%nat initialGame)).
Proof.
  assert (flyingBubble initialGame = None) as H1 by (vm_compute; reflexivity).
  assert (forall b, In b (bubbles initialGame) ->
                    Bubble.isPopping (deref initialGame b) = false) as H2.
  { assert (forallb (fun b => negb (Bubble.isPopping (deref initialGame b)))
              (bubbles initialGame) = true) as Hall by (vm_compute; reflexivity).
    rewrite forallb_forall in Hall. intros b Hb. by apply negb_true_iff, Hall. }
  assert (nextHandle initialGame = 2%nat) as Hn by (vm_compute; reflexivity).
  assert (frameRequests initialGame = [1%nat]) as Hr by (vm_compute; reflexivity).
  split; [exact H1|].
  pose proof (idle_frame initialGame H1 H2) as H.
  rewrite Hn, Hr in H. exact H.
Defined.

(** * The gravity pass, run twice *)

Lemma kept_supported (g : Game) (b : ref) :
  In b (gridBubbles (checkFloatingBubbles g)) -> supported (checkFloatingBubbles g) b.
Proof.
  pose proof (checkFloatingBubbles_fields g) as H. cbn zeta in H.
  destruct H as (Hgrid & _ & _ & _ & Hderef & _).
  set (g' := checkFloatingBubbles g) in *.
  assert (forall b, In b (gridBubbles g') <-> In b (gridBubbles g) /\ supported g b) as Hkept.
  { intros c. rewrite Hgrid, filter_In, bool_decide_eq_true, connectedToCeiling_iff.
    tauto. }
  assert (forall b, supported g b -> deref g' b = deref g b) as Hsup.
  { intros c Hc. rewrite Hderef.
    assert (memb c (floating g) = false) as ->; [|reflexivity].
    apply memb_not_In. rewrite floating_iff. tauto. }
  intros Hb. apply Hkept in Hb as [_ (s & Hs & Hy & Hrtc)].
  exists s.
  assert (supported g s) as Hss
    by (exists s; split; [exact Hs|]; split; [exact Hy|]; constructor).
  split; [by apply Hkept|]. split; [by rewrite Hsup|].
  revert b Hrtc.
  apply (rtc_ind_r (fun z => rtc (fun a c => In c (getNeighbors g' a)) s z)); [constructor|].
  intros c d Hsc Hcd IH.
  assert (supported g c) as Hc by (exists s; auto).
  assert (supported g d) as Hd.
  { exists s. split; [exact Hs|]. split; [exact Hy|]. by eapply rtc_r. }
  eapply rtc_r; [exact IH|].
  apply getNeighbors_iff in Hcd as (Hdg & Hne & Hcol).
  apply getNeighbors_iff. split; [by apply Hkept|]. split; [exact Hne|].
  by rewrite !Hsup.
Qed.

Lemma filter_all (f : ref -> bool) (l : list ref) :
  (forall b, In b l -> f b = true) -> List.filter f l = l.
Proof.
  induction l as [|a l IH]; intros H; [reflexivity|].
  cbn [List.filter]. rewrite (H a) by (by left).
  rewrite IH by (intros b Hb; apply H; by right). reflexivity.
Qed.

Lemma filter_none (f : ref -> bool) (l : list ref) :
  (forall b, In b l -> f b = false) -> List.filter f l = [].
Proof.
  induction l as [|a l IH]; intros H; [reflexivity|].
  cbn [List.filter]. rewrite (H a) by (by left).
  apply IH. intros b Hb. apply H. by right.
Qed.

(** X11. The gravity pass is idempotent.  After [checkFloatingBubbles]
    every bubble left in the grid hangs from the ceiling, so a second call
    right after it lets nothing fall: the grid, the [bubbles] array, the
    score and every object are as the first call left them. *)
Theorem gravity_pass_idempotent (g : Game) :
  let g1 := checkFloatingBubbles g in
  let g2 := checkFloatingBubbles g1 in
  (forall b, In b (gridBubbles g1) -> supported g1 b) /\
  floating g1 = [] /\
  gridBubbles g2 = gridBubbles g1 /\ bubbles g2 = bubbles g1 /\
  score g2 = score g1 /\ (forall b, deref g2 b = deref g1 b).
Proof.
  cbn zeta. set (g1 := checkFloatingBubbles g).
  assert (forall b, In b (gridBubbles g1) -> supported g1 b) as Hsup
    by (intros b; apply kept_supported).
  assert (forall b, In b (gridBubbles g1) ->
            bool_decide (b ∈ fvisited (ceilingFlood g1)) = true) as Hvis.
  { intros b Hb. by apply bool_decide_eq_true, connectedToCeiling_iff, Hsup. }
  assert (floating g1 = []) as Hfl.
  { unfold floating. rewrite filter_none; [reflexivity|].
    intros b Hb. by rewrite Hvis. }
  clearbody g1.
  pose proof (checkFloatingBubbles_fields g1) as H. cbn zeta in H.
  destruct H as (Hgr & Hb & Hsc & _ & Hd & _).
  rewrite Hfl in Hb, Hsc, Hd. cbn [fold_left length memb existsb andb] in Hb, Hsc, Hd.
  split; [exact Hsup|]. split; [exact Hfl|].
  split; [rewrite Hgr; by apply filter_all|].
  split; [by rewrite Hb, app_nil_r|].
  split; [rewrite Hsc; cbn; lia|exact Hd].
Qed.

(** * The flight *)

Lemma wallCollision_inside (b : Bubble.t) :
  Bubble.radius b = BUBBLE_RADIUS -> hitsWall (wallCollision b) = false.
Proof.
  intros Hr. unfold wallCollision.
  destruct (hitsWall b) eqn:Hh; [|exact Hh].
  destruct b as [x y c r ig vx vy ip pf]. cbn in Hr. subst r.
  unfold hitsWall in *. cbn in *.
  destruct (x - BUBBLE_RADIUS <? 0) eqn:H1; cbn in *.
  - reflexivity.
  - rewrite Hh. cbn. reflexivity.
Qed.

(** X12. A bubble that is still flying after a tick is inside the
    playing field.  If [updateGame] leaves the flying bubble in flight, the
    bubble is the advanced one after the wall block: its horizontal extent
    lies within the canvas, its top is not above the ceiling and it collides
    with no grid bubble. *)
Theorem still_flying_inside (g : Game) (f : ref) :
  flyingBubble g = Some f -> (f < length (heap g))%nat ->
  Bubble.radius (deref g f) = BUBBLE_RADIUS ->
  flyingBubble (updateGame g) = Some f ->
  let b := deref (updateGame g) f in
  b = wallCollision (advance (deref g f)) /\
  hitsWall b = false /\
  (Bubble.y b - Bubble.radius b <? 0) = false /\
  collisionWithGrid (updateGame g) f = false /\
  gridBubbles (updateGame g) = gridBubbles g.
Proof.
  intros Hf Hlt Hr Hstill. cbn zeta.
  destruct (updateGame_cases g) as [[Hn _]|[(f' & Hf' & Hu)|(f' & g1 & _ & _ & Hu)]].
  - congruence.
  - assert (f' = f) as -> by congruence.
    assert (deref (modify f wallCollision (modify f advance g)) f =
            wallCollision (advance (deref g f))) as Hd.
    { rewrite !deref_modify, length_heap_modify, Nat.eqb_refl.
      apply Nat.ltb_lt in Hlt. rewrite Hlt. reflexivity. }
    assert (((Bubble.y (deref (modify f wallCollision (modify f advance g)) f) -
              Bubble.radius (deref (modify f wallCollision (modify f advance g)) f) <? 0)
             || collisionWithGrid (modify f wallCollision (modify f advance g)) f) = false)
      as Htest.
    { destruct (_ || _) eqn:Ht; [|reflexivity].
      unfold updateGame in Hstill. rewrite Hf in Hstill. cbn zeta in Hstill.
      rewrite Ht in Hstill.
      destruct (settle_control f (modify f wallCollision (modify f advance g)))
        as (_ & _ & Hn & _).
      cbn zeta in Hn. congruence. }
    apply orb_false_iff in Htest as [Hy Hc].
    rewrite Hu. split; [exact Hd|].
    split.
    { rewrite Hd. apply wallCollision_inside.
      destruct (deref g f); cbn in *. exact Hr. }
    split; [exact Hy|]. split; [exact Hc|reflexivity].
  - destruct (settle_control f' g1) as (_ & _ & Hn & _). cbn zeta in Hn.
    rewrite Hu in Hstill. congruence.
Qed.

(** * A press before any aim *)

Lemma horizontalCycle_closed :
  forallb (fun p => existsb (samePair (bounce p)) horizontalCycle) horizontalCycle = true.
Proof. vm_compute. reflexivity. Qed.

Lemma initial_heap (rand : nat -> Draw) :
  length (heap (initGame rand game0)) = 45%nat /\
  clearOf (heap (initGame rand game0)) = true.
Proof. split; vm_compute; reflexivity. Qed.

Lemma bounce_spec (c : string) (p : float * float) :
  wallCollision (advance (bouncer c p)) = bouncer c (bounce p).
Proof.
  destruct p as [x vx].
  unfold bounce, bouncer, advance, wallCollision, hitsWall. cbn.
  destruct (_ || _); [|reflexivity].
  destruct (x + vx - BUBBLE_RADIUS <? 0); cbn;
    repeat match goal with |- context [if ?c then _ else _] => destruct c; cbn end;
    reflexivity.
Qed.

Lemma drawBubbles_idle (g : Game) :
  (forall b, In b (bubbles g) -> Bubble.isPopping (deref g b) = false) ->
  drawBubbles g = g.
Proof.
  intros Hp. rewrite drawBubbles_unfold, (drawFold_idle (bubbles g) g [] Hp).
  by destruct g.
Qed.

Lemma existsb_ext_In (f h : ref -> bool) (l : list ref) :
  (forall b, In b l -> f b = h b) -> existsb f l = existsb h l.
Proof.
  induction l as [|a l IH]; intros Hfh; [reflexivity|].
  cbn [existsb]. rewrite (Hfh a) by (by left).
  rewrite IH by (intros b Hb; apply Hfh; by right). reflexivity.
Qed.

Lemma adriftOver_gameLoop (h0 : list Bubble.t) (g : Game) :
  length h0 = 45%nat -> clearOf h0 = true ->
  adriftOver h0 g -> adriftOver h0 (gameLoop g).
Proof.
  intros Hl Hclear (c & p & Hp & Hh & Hg & Hb & Hf & Hs & Ha).
  apply andb_true_iff in Hclear as [Hclear Hnp].
  set (g1 := modify 45 wallCollision (modify 45 advance g)).
  assert (heap g1 = h0 ++ [bouncer c (bounce p)]) as Hh1.
  { unfold g1, modify. cbn [heap set_heap]. rewrite Hh, <- Hl, !alter_last.
    by rewrite bounce_spec. }
  assert (deref g1 45%nat = bouncer c (bounce p)) as Hd45.
  { unfold deref. rewrite Hh1, lookup_total_app_r by lia.
    by rewrite Hl. }
  assert (forall b, (b < 45)%nat -> deref g1 b = h0 !!! b) as Hold.
  { intros b Hlt. unfold deref. rewrite Hh1. apply lookup_total_app_l. lia. }
  assert (In (bounce p) horizontalCycle) as Hp'.
  { pose proof horizontalCycle_closed as Hc. rewrite forallb_forall in Hc.
    specialize (Hc p Hp). apply existsb_exists in Hc as (q & Hq & Heq).
    apply andb_true_iff in Heq as [H1 H2]. apply Leibniz.eqb_spec in H1, H2.
    destruct (bounce p), q. cbn in H1, H2. by subst. }
  assert (gridBubbles g1 = seq 0 45) as Hg1 by exact Hg.
  assert (bubbles g1 = seq 0 46) as Hb1 by exact Hb.
  assert (flyingBubble g1 = Some 45%nat) as Hf1 by exact Hf.
  assert (score g1 = 0%Z) as Hs1 by exact Hs.
  assert (alerts g1 = []) as Ha1 by exact Ha.
  assert (updateGame g = g1) as Hu.
  { unfold updateGame. rewrite Hf. cbn zeta. fold g1.
    assert (((Bubble.y (deref g1 45%nat) - Bubble.radius (deref g1 45%nat) <? 0)
             || collisionWithGrid g1 45%nat) = false) as ->; [|reflexivity].
    apply orb_false_iff. split; [rewrite Hd45; reflexivity|].
    unfold collisionWithGrid. rewrite Hg1, Hd45.
    rewrite forallb_forall in Hclear. specialize (Hclear _ Hp').
    apply negb_true_iff in Hclear. rewrite <- Hclear.
    apply existsb_ext_In. intros b Hin. apply in_seq in Hin.
    rewrite Hold by lia. reflexivity. }
  assert (drawBubbles g1 = g1) as Hdraw.
  { apply drawBubbles_idle. intros b Hin. rewrite Hb1 in Hin. apply in_seq in Hin.
    destruct (Nat.eq_dec b 45%nat) as [->|Hne]; [by rewrite Hd45|].
    rewrite Hold by lia. rewrite forallb_forall in Hnp.
    apply negb_true_iff, Hnp, in_seq. lia. }
  unfold gameLoop, drawGame. rewrite Hu, Hdraw. clearbody g1.
  exists c, (bounce p). split; [exact Hp'|].
  split; [exact Hh1|]. split; [exact Hg1|]. split; [exact Hb1|].
  split; [exact Hf1|]. split; [exact Hs1|exact Ha1].
Qed.

Lemma adriftOver_applyEvent `{MathHost} (rand : nat -> Draw) (h0 : list Bubble.t)
    (g : Game) (e : Event) :
  length h0 = 45%nat -> clearOf h0 = true ->
  adriftOver h0 g -> adriftOver h0 (applyEvent rand g e).
Proof.
  intros Hl Hc Hg. destruct e as [|x y|]; cbn [applyEvent].
  - unfold runFrame. destruct (frameRequests g) as [|h rest]; [exact Hg|].
    apply adriftOver_gameLoop; [exact Hl|exact Hc|exact Hg].
  - destruct Hg as (c & p & Hp & Hh & Hgr & Hb & Hf & Hrest).
    unfold handleAim. rewrite Hf. exists c, p. tauto.
  - destruct Hg as (c & p & Hp & Hh & Hgr & Hb & Hf & Hrest).
    unfold handleShoot. rewrite Hf. exists c, p. tauto.
Qed.

Lemma adrift_first_press `{MathHost} (rand : nat -> Draw) :
  adrift rand (handleShoot rand (initGame rand game0)).
Proof.
  assert (flyingBubble (initGame rand game0) = None) as Hf by (vm_compute; reflexivity).
  assert (cannonAngle (initGame rand game0) = 0) as Ha by (vm_compute; reflexivity).
  assert (gridBubbles (initGame rand game0) = seq 0 45) as Hg
    by (vm_compute; reflexivity).
  assert (bubbles (initGame rand game0) ++ [45%nat] = seq 0 46) as Hb
    by (vm_compute; reflexivity).
  assert (score (initGame rand game0) = 0%Z) as Hs by (vm_compute; reflexivity).
  assert (alerts (initGame rand game0) = []) as Hal by (vm_compute; reflexivity).
  destruct (initial_heap rand) as [Hl _].
  rewrite (handleShoot_unfold rand _ Hf). unfold adrift.
  set (g0 := initGame rand game0) in *. clearbody g0.
  exists (getRandomBubbleColor g0 (rand (randomCalls g0))), (220, 10).
  split; [by left|]. cbn [heap gridBubbles bubbles flyingBubble score alerts].
  split.
  { unfold shotBubble. rewrite Ha, Math_cos_zero, Math_sin_zero. reflexivity. }
  rewrite Hl. split; [exact Hg|]. split; [exact Hb|]. split; [reflexivity|].
  split; [exact Hs|exact Hal].
Qed.

(** X13. A press before any aim locks the game.  The cannon angle starts
    at 0, so the first press of a game that comes before any accepted aim
    shoots horizontally, at the height of the cannon.  For every random
    sequence and every sequence of frames and pointer events after that
    press, the bubble is still flying along that line (it bounces between
    the side walls and meets neither the ceiling nor the grid): the grid and
    the score stay as [initGame] left them, no alert is shown, and every
    later pointer event is ignored, so no other bubble is ever shot. *)
Theorem unaimed_shot_never_lands `{MathHost} (rand : nat -> Draw) (events : list Event) :
  let g := play rand events (handleShoot rand (initGame rand game0)) in
  flyingBubble g = Some 45%nat /\ gridBubbles g = seq 0 45 /\
  score g = 0%Z /\ alerts g = [] /\
  Bubble.y (deref g 45%nat) = 580 /\ Bubble.vy (deref g 45%nat) = 0 /\
  (forall e, e <> Frame -> applyEvent rand g e = g).
Proof.
  cbn zeta.
  destruct (initial_heap rand) as [Hl Hc].
  pose proof (adrift_first_press rand) as H0. unfold adrift in H0.
  set (h0 := heap (initGame rand game0)) in *.
  set (g0 := handleShoot rand (initGame rand game0)) in *.
  clearbody g0 h0.
  assert (adriftOver h0 (play rand events g0)) as Hg.
  { apply (play_invariant rand (adriftOver h0)); [|exact H0].
    intros g e. by apply adriftOver_applyEvent. }
  set (g := play rand events g0) in *. clearbody g.
  destruct Hg as (c & p & Hp & Hh & Hgr & Hb & Hf & Hs & Ha).
  split; [exact Hf|]. split; [exact Hgr|]. split; [exact Hs|]. split; [exact Ha|].
  assert (deref g 45%nat = bouncer c p) as Hd.
  { unfold deref. rewrite Hh, lookup_total_app_r by lia. by rewrite Hl. }
  rewrite Hd. split; [reflexivity|]. split; [reflexivity|].
  intros e He. destruct e as [|x y|]; [by destruct He| |]; cbn [applyEvent].
  - unfold handleAim. by rewrite Hf.
  - unfold handleShoot. by rewrite Hf.
Qed.

(** * The outcome of a settle *)

Lemma removed_count (l gr : list ref) :
  List.NoDup l -> List.NoDup gr -> (forall b, In b l -> In b gr) ->
  (length (List.filter (fun b => negb (memb b l)) gr) + length l = length gr)%nat.
Proof.
  intros Hl Hgr Hincl.
  pose proof (List.filter_length (fun b => memb b l) gr) as Hsum.
  assert (length (List.filter (fun b => memb b l) gr) = length l) as Heq.
  { apply Nat.le_antisymm.
    - apply NoDup_incl_length; [by apply filter_NoDup|].
      intros b Hb. apply filter_In in Hb as [_ Hb]. by apply memb_In.
    - apply NoDup_incl_length; [exact Hl|].
      intros b Hb. apply filter_In. split; [by apply Hincl|by apply memb_In]. }
  lia.
Qed.

Lemma checkMatches_poppedBy (f : ref) (g : Game) :
  let g1 := place f g in
  let g2 := checkMatches f g1 in
  List.NoDup (gridBubbles g1) ->
  gridBubbles g2 = List.filter (fun b => negb (memb b (poppedBy f g))) (gridBubbles g1) /\
  score g2 = (score g + 10 * Z.of_nat (length (poppedBy f g)))%Z /\
  length (heap g2) = length (heap g1) /\ bubbles g2 = bubbles g1 /\
  (forall b, deref g2 b =
     if memb b (poppedBy f g) && (b <? length (heap g1))%nat
     then Bubble.set_isPopping true (deref g1 b) else deref g1 b).
Proof.
  cbn zeta. intros Hnd. unfold checkMatches, poppedBy.
  destruct (3 <=? _)%nat.
  - rewrite popBubbles_popLoop.
    set (l := getConnectedSameColorBubbles (place f g) f).
    set (g1' := showScore _).
    assert (List.NoDup (gridBubbles g1')) as Hnd' by exact Hnd.
    destruct (popLoop_spec l g1' Hnd') as (Hs & _ & Hb & _ & Hl & Hg & Hd).
    cbn zeta in *. split; [exact Hg|]. split.
    { rewrite Hs. unfold g1', POP_SCORE. cbn [score showScore set_score set_scoreDisplay].
      change (score (place f g)) with (score g). lia. }
    split; [exact Hl|]. split; [exact Hb|exact Hd].
  - cbn [memb existsb negb andb length]. split.
    { symmetry. by apply filter_all. }
    split; [change (score (place f g)) with (score g); lia|]. by repeat split.
Qed.

Lemma poppedBy_spec (f : ref) (g : Game) :
  List.NoDup (poppedBy f g) /\
  (forall b, In b (poppedBy f g) -> In b (gridBubbles g ++ [f])) /\
  (poppedBy f g = [] \/ (3 <= length (poppedBy f g))%nat).
Proof.
  unfold poppedBy.
  destruct (getConnectedSameColorBubbles_spec (place f g) f) as (_ & (Hnd & Heq) & Htl).
  cbn zeta in *.
  destruct (Nat.leb_spec 3 (length (getConnectedSameColorBubbles (place f g) f)));
    [|split; [constructor|split; [intros b []|by left]]].
  split; [rewrite Heq; exact Hnd|]. split; [|by right].
  intros b Hb. rewrite Heq in Hb. destruct Hb as [<-|Hb].
  - apply in_app_iff. right. by left.
  - apply Htl in Hb as [Hb _]. exact Hb.
Qed.

(** X14. The account of a settle.  When the flying bubble of a
    well-formed state settles, the bubbles of the grid and the settled
    bubble itself are those that end in the grid, popped (the same-colour
    component of the settled bubble, if it has three members or more) or
    fallen, and the three counts add up to the size of the old grid plus
    one.  The popped ones are marked as popping, the fallen ones lose
    [isGrid], get [vy = 5] and stay in [bubbles], and the score grows by 10
    for each popped and 5 for each fallen bubble. *)
Theorem settle_accounting (g : Game) (f : ref) :
  wellFormed g -> flyingBubble g = Some f ->
  let g' := settle f g in
  let popped := poppedBy f g in
  let fallen := fallenBy f g in
  (forall b, In b (gridBubbles g ++ [f]) <->
     In b (gridBubbles g') \/ In b popped \/ In b fallen) /\
  (length (gridBubbles g') + length popped + length fallen
     = S (length (gridBubbles g)))%nat /\
  score g' = (score g + 10 * Z.of_nat (length popped) + 5 * Z.of_nat (length fallen))%Z /\
  (popped = [] \/ (3 <= length popped)%nat) /\
  (forall b, In b popped -> Bubble.isPopping (deref g' b) = true) /\
  (forall b, In b fallen ->
     Bubble.isGrid (deref g' b) = false /\ Bubble.vy (deref g' b) = 5 /\
     In b (bubbles g')).
Proof.
  intros Hwf Hf. cbn zeta.
  pose proof (gridOK_place f g Hwf Hf) as (Hnd1 & Hndb1 & Halloc1 & Hgrid1).
  destruct (poppedBy_spec f g) as (Hndp & Hinclp & Hthree).
  pose proof (checkMatches_poppedBy f g) as H2. cbn zeta in H2.
  destruct (H2 Hnd1) as (Hg2 & Hs2 & Hl2 & Hb2 & Hd2). clear H2.
  assert (gridBubbles (place f g) = gridBubbles g ++ [f]) as Hg1 by reflexivity.
  unfold settle, fallenBy. cbn zeta.
  set (g1 := place f g) in *.
  set (popped := poppedBy f g) in *.
  set (g2 := checkMatches f g1) in *.
  set (g3 := set_flyingBubble None g2).
  assert (gridBubbles g3 = gridBubbles g2 /\ score g3 = score g2 /\
          heap g3 = heap g2 /\ bubbles g3 = bubbles g2 /\ flyingBubble g3 = None)
    as (Hg3 & Hs3 & Hh3 & Hb3 & Hf3) by (by repeat split).
  assert (forall b, deref g3 b = deref g2 b) as Hd3 by reflexivity.
  clearbody g3 g2 popped g1.
  pose proof (checkFloatingBubbles_fields g3) as H4. cbn zeta in H4.
  destruct H4 as (Hg4 & Hb4 & Hs4 & _ & Hd4 & Hl4 & Hf4 & _).
  set (g4 := checkFloatingBubbles g3) in *.
  assert (flyingBubble g4 = None) as Hfn by congruence.
  destruct (checkGameOver_fields g4 Hfn) as (E1 & E2 & E3 & _ & E5 & _).
  clearbody g4.
  assert (forall b, deref (checkGameOver g4) b = deref g4 b) as Hd5
    by (intros b; unfold deref; by rewrite E1).
  set (fallen := floating g3) in *.
  assert (forall b, In b fallen <->
            In b (gridBubbles g3) /\
            bool_decide (b ∈ fvisited (ceilingFlood g3)) = false) as Hfallen.
  { intros b. unfold fallen, floating. rewrite <- in_rev, filter_In, negb_true_iff.
    tauto. }
  split.
  { intros b. rewrite E2, Hg4, filter_In, Hfallen, Hg3, Hg2, filter_In, negb_true_iff,
      <- Hg1.
    assert (In b popped -> In b (gridBubbles g1)) as Hin
      by (intros Hb; rewrite Hg1; by apply Hinclp).
    destruct (memb_In b popped) as [Hm1 Hm2].
    destruct (memb b popped);
      destruct (bool_decide (b ∈ fvisited (ceilingFlood g3)));
      intuition (try discriminate). }
  split.
  { rewrite E2, Hg4.
    pose proof (List.filter_length
                  (fun b => bool_decide (b ∈ fvisited (ceilingFlood g3)))
                  (gridBubbles g3)) as Hsum.
    assert (length fallen =
            length (List.filter
                      (fun b => negb (bool_decide (b ∈ fvisited (ceilingFlood g3))))
                      (gridBubbles g3))) as Hlf
      by (unfold fallen, floating; apply length_rev).
    assert (length (gridBubbles g3) + length popped = length (gridBubbles g1))%nat
      as Hcount.
    { rewrite Hg3, Hg2. apply removed_count; [exact Hndp|exact Hnd1|].
      intros b Hb. rewrite Hg1. by apply Hinclp. }
    rewrite Hg1, length_app in Hcount. cbn [length] in Hcount. lia. }
  split; [rewrite E5, Hs4, Hs3, Hs2; reflexivity|].
  split; [exact Hthree|].
  split.
  { intros b Hb. rewrite Hd5, Hd4.
    assert (~ In b fallen) as Hnf.
    { rewrite Hfallen, Hg3, Hg2, filter_In. intros [[_ Hm] _].
      apply memb_In in Hb. rewrite Hb in Hm. discriminate. }
    apply memb_not_In in Hnf. rewrite Hnf. cbn [andb].
    rewrite Hd3, Hd2. apply memb_In in Hb as Hm. rewrite Hm.
    assert ((b <? length (heap g1))%nat = true) as ->.
    { apply Nat.ltb_lt, Halloc1, Hgrid1. rewrite Hg1. by apply Hinclp. }
    cbn [andb]. by destruct (deref g1 b). }
  intros b Hb. rewrite Hd5, Hd4, E3, Hb4.
  apply memb_In in Hb as Hm. rewrite Hm.
  assert ((b <? length (heap g3))%nat = true) as ->.
  { apply Nat.ltb_lt. rewrite Hh3, Hl2. apply Halloc1, Hgrid1.
    apply Hfallen in Hb as [Hb _]. rewrite Hg3, Hg2 in Hb.
    apply filter_In in Hb. tauto. }
  cbn [andb]. unfold makeFall.
  split; [by destruct (deref g3 b)|]. split; [by destruct (deref g3 b)|].
  apply in_app_iff. by right.
Qed.

Lemma wellFormed_check (g : Game) :
  bool_decide (NoDup (gridBubbles g)) = true ->
  bool_decide (NoDup (bubbles g)) = true ->
  forallb (fun b => (b <? length (heap g))%nat) (bubbles g) = true ->
  forallb (fun b => memb b (bubbles g) && Bubble.isGrid (deref g b) &&
                    negb (Bubble.isPopping (deref g b))) (gridBubbles g) = true ->
  match flyingBubble g with
  | Some f => memb f (bubbles g) && negb (memb f (gridBubbles g)) &&
              negb (Bubble.isGrid (deref g f)) && negb (Bubble.isPopping (deref g f))
  | None => true
  end = true ->
  wellFormed g.
Proof.
  intros H1 H2 H3 H4 H5.
  rewrite forallb_forall in H3, H4.
  split; [split; [by apply NoDup_check|split; [by apply NoDup_check|split]]|].
  - intros b Hb. by apply Nat.ltb_lt, H3.
  - intros b Hb. apply H4 in Hb.
    apply andb_true_iff in Hb as [Hb Hp]. apply andb_true_iff in Hb as [Hb Hg].
    apply memb_In in Hb. apply negb_true_iff in Hp. by repeat split.
  - intros f Hf. rewrite Hf in H5.
    apply andb_true_iff in H5 as [H5 Hp]. apply andb_true_iff in H5 as [H5 Hg].
    apply andb_true_iff in H5 as [Hb Hn].
    apply memb_In in Hb. apply negb_true_iff in Hp, Hg, Hn.
    apply memb_not_In in Hn. by repeat split.
Qed.

Lemma settle_accounting_witness :
  wellFormed settleGame /\ flyingBubble settleGame = Some 3%nat /\
  poppedBy 3%nat settleGame = [3; 0; 1]%nat /\
  fallenBy 3%nat settleGame = [2%nat] /\
  score (settle 3%nat settleGame) = 35%Z.
Proof.
  assert (wellFormed settleGame) as H1
    by (apply wellFormed_check; vm_compute; reflexivity).
  assert (flyingBubble settleGame = Some 3%nat) as H2 by reflexivity.
  assert (poppedBy 3%nat settleGame = [3; 0; 1]%nat) as H3 by (vm_compute; reflexivity).
  assert (fallenBy 3%nat settleGame = [2%nat]) as H4 by (vm_compute; reflexivity).
  split; [exact H1|]. split; [exact H2|]. split; [exact H3|]. split; [exact H4|].
  pose proof (settle_accounting settleGame 3%nat H1 H2) as H. cbn zeta in H.
  destruct H as (_ & _ & Hs & _). rewrite Hs, H3, H4. reflexivity.
Defined.

Lemma still_flying_inside_witness :
  flyingBubble inFlightGame = Some 45%nat /\
  (45 < length (heap inFlightGame))%nat /\
  Bubble.radius (deref inFlightGame 45%nat) = BUBBLE_RADIUS /\
  flyingBubble (updateGame inFlightGame) = Some 45%nat /\
  hitsWall (deref (updateGame inFlightGame) 45%nat) = false.
Proof.
  assert (flyingBubble inFlightGame = Some 45%nat) as H1 by (vm_compute; reflexivity).
  assert (45 < length (heap inFlightGame))%nat as H2
    by (apply Nat.ltb_lt; vm_compute; reflexivity).
  assert (Bubble.radius (deref inFlightGame 45%nat) = BUBBLE_RADIUS) as H3
    by (vm_compute; reflexivity).
  assert (flyingBubble (updateGame inFlightGame) = Some 45%nat) as H4
    by (vm_compute; reflexivity).
  split; [exact H1|]. split; [exact H2|]. split; [exact H3|]. split; [exact H4|].
  pose proof (still_flying_inside inFlightGame 45%nat H1 H2 H3 H4) as H.
  cbn zeta in H. destruct H as (_ & Hw & _). exact Hw.
Defined.
